(** * Token lifecycle of [src/app.js]: expiry check, refresh on demand,
      persistence

    The development embeds the handlers of [GET /callback] and
    [GET /get-token] and the helper [refreshToken] of [src/app.js] as
    functions over an explicit world: the rows of the [user_tokens] table,
    a counter of datastore calls and the trace of calls made to the outside.
    Everything the file only talks to (the clock, the datastore's
    availability, the provider's token endpoint, the identity provider's
    code exchange) is a field of an environment record. Logging
    ([console.error]) is left out: it changes nothing the handlers read. *)

From Stdlib Require Import ZArith List Bool Lia.
From stdpp Require Import gmap strings list fin_maps.

Open Scope string_scope.
Open Scope list_scope.

(** ** JavaScript values *)

Module JS.

(** The primitive values that travel through the handlers: query
    parameters, JSON fields of the datastore's and the provider's answers.
    Numbers are integers (seconds and milliseconds since the epoch). *)
Inductive value :=
| VUndefined
| VNull
| VBool (b : bool)
| VNum (n : Z)
| VStr (s : string).

#[global] Instance value_eq_dec : EqDecision value.
Proof. solve_decision. Defined.

(** ToBoolean. *)
Definition truthy (v : value) : bool :=
  match v with
  | VUndefined | VNull => false
  | VBool b => b
  | VNum n => negb (n =? 0)%Z
  | VStr s => negb (String.eqb s "")
  end.

(** [a || b] *)
Definition js_or (a b : value) : value := if truthy a then a else b.

(** An object is a finite map from property names to values; reading a
    property that is not there gives [undefined]. *)
Definition get (o : gmap string value) (k : string) : value :=
  default VUndefined (o !! k).

(** What [JSON.stringify] keeps of an object: a property whose value is
    [undefined] is not serialised. *)
Definition stringified (o : gmap string value) : gmap string value :=
  filter (λ kv, kv.2 ≠ VUndefined) o.

Section Relational.

(** StringToNumber of the language, [None] for NaN. The handlers never
    build the strings they compare, so the conversion stays a parameter. *)
Variable StringToNumber : string → option Z.

(** ToNumber, [None] for NaN. *)
Definition ToNumber (v : value) : option Z :=
  match v with
  | VUndefined => None
  | VNull => Some 0%Z
  | VBool b => Some (if b then 1 else 0)%Z
  | VNum n => Some n
  | VStr s => StringToNumber s
  end.

(** [a > t] where the right operand is a Number: both sides are
    compared as numbers, and a NaN makes the comparison false. *)
Definition js_gt (a : value) (t : Z) : bool :=
  match ToNumber a with
  | Some n => (t <? n)%Z
  | None => false
  end.

End Relational.

End JS.

Import JS.

(** ** The [user_tokens] table *)

Module Store.

(** One row per (user, issuance). The three token columns hold whatever
    JSON value was last written to them. *)
Record row := {
  user_id : string;
  access_token : value;
  refresh_token : value;
  expires_at : value;
  created_at : Z
}.

Definition with_tokens (r : row) (a rt e : value) : row :=
  {| user_id := user_id r; access_token := a; refresh_token := rt;
     expires_at := e; created_at := created_at r |}.

(** The value of a named column, as [select] returns it. *)
Definition column (r : row) (c : string) : option value :=
  if String.eqb c "user_id" then Some (VStr (user_id r))
  else if String.eqb c "access_token" then Some (access_token r)
  else if String.eqb c "refresh_token" then Some (refresh_token r)
  else if String.eqb c "expires_at" then Some (expires_at r)
  else if String.eqb c "created_at" then Some (VNum (created_at r))
  else None.

(** [.select('c1, c2, ...')]: the row as an object with these columns. *)
Definition select (cols : list string) (r : row) : gmap string value :=
  list_to_map (omap (λ c, pair c <$> column r c) cols).

(** The operand of [.eq('user_id', v)] reaches the datastore as the text
    [`eq.${v}`]; a query parameter that is absent is [undefined]. *)
Definition eq_operand (v : option string) : string :=
  default "undefined" v.

(** [.eq('user_id', v)] *)
Definition eq_user_id (v : option string) (rows : list row) : list row :=
  filter (λ r, user_id r = eq_operand v) rows.

(** [.order('created_at', { ascending: false })], as a stable sort: rows
    created at the same instant keep their table order. *)
Fixpoint insert_desc (r : row) (l : list row) : list row :=
  match l with
  | [] => [r]
  | x :: l' =>
      if (created_at x <=? created_at r)%Z then r :: l
      else x :: insert_desc r l'
  end.

Definition order_created_at_desc (rows : list row) : list row :=
  foldr insert_desc [] rows.

(** [.limit(n)] *)
Definition limit (n : nat) (rows : list row) : list row := take n rows.

(** [.single()]: exactly one row, or an error. *)
Definition single (rows : list row) : option row :=
  match rows with
  | [r] => Some r
  | _ => None
  end.

(** The query both readers of the table run: the latest row of a user. *)
Definition latest (v : option string) (rows : list row) : option row :=
  single (limit 1 (order_created_at_desc (eq_user_id v rows))).

(** What a column holds after a patch offered [new] for it. *)
Definition written (new old : value) : value :=
  match new with
  | VUndefined => old
  | _ => new
  end.

(** [.update(patch)] on one row. The patch travels as JSON, so a property
    that is [undefined] is not part of it and its column keeps its value. *)
Definition patched (patch : gmap string value) (r : row) : row :=
  let sent := stringified patch in
  with_tokens r
    (default (access_token r) (sent !! "access_token"))
    (default (refresh_token r) (sent !! "refresh_token"))
    (default (expires_at r) (sent !! "expires_at")).

(** [.update(patch).eq('user_id', v)]: every row that passes the filter is
    patched. *)
Definition update_where (patch : gmap string value) (v : option string)
    (rows : list row) : list row :=
  map (λ r, if decide (user_id r = eq_operand v) then patched patch r else r)
      rows.

End Store.

Import Store.

(** ** The world outside the file *)

(** Calls that leave the process, in the order they are made. *)
Inductive event :=
| DbSelect (v : option string)
| DbUpdate (v : option string) (patch : gmap string value)
| DbUpsert (payload : gmap string value)
| ProviderRefresh (sent_refresh_token : value)
| ProviderExchange (code : string).

#[global] Instance event_eq_dec : EqDecision event.
Proof. solve_decision. Defined.

(** The answer of the provider's token endpoint: the [ok] flag of the
    HTTP status and the body as [response.json()] gives it, [None] when
    reading it fails. A body that is valid JSON but no object has none of
    the properties read from it, like the empty object. *)
Record response := {
  ok : bool;
  json : option (gmap string value)
}.

(** [session.session] of a completed code exchange. *)
Record session := {
  session_user_id : string;
  session_access_token : value;
  session_refresh_token : value;
  session_expires_at : value
}.

(** What the handlers cannot decide themselves:
    - [Date_now], the clock in milliseconds;
    - [db_fails k], whether the datastore fails to serve the call that
      comes after [k] earlier ones;
    - [token_endpoint rt], the provider's answer to a refresh grant for
      the refresh token [rt], [None] when no answer arrives;
    - [exchangeCodeForSession code], the session the identity provider
      gives for an authorization code, [None] for an error;
    - [upsert_rows payload rows], the table after an upsert: it depends on
      the table's key, which the repository does not declare. *)
Record env := {
  Date_now : Z;
  db_fails : nat → bool;
  token_endpoint : value → option response;
  exchangeCodeForSession : string → option session;
  upsert_rows : gmap string value → list row → list row
}.

(** The rows of the table, the number of datastore calls made so far and
    the calls made so far. *)

Record world := {
  table : list row;
  calls : nat;
  trace : list event
}.

(** ** Effects: state and exceptions *)

Inductive exn := Error (message : string).

Inductive completion (A : Type) :=
| Normal (a : A)
| Throw (e : exn).
Arguments Normal {A} a.
Arguments Throw {A} e.

Definition M (A : Type) : Type := world → completion A * world.

#[global] Instance M_ret : MRet M := λ A a w, (Normal a, w).

#[global] Instance M_bind : MBind M := λ A B k m w,
  match m w with
  | (Normal a, w') => k a w'
  | (Throw e, w') => (Throw e, w')
  end.

Definition throw {A : Type} (e : exn) : M A := λ w, (Throw e, w).

(** [try { body } catch (err) { handler }] *)
Definition try_catch {A : Type} (body : M A) (handler : exn → M A) : M A :=
  λ w, match body w with
       | (Normal a, w') => (Normal a, w')
       | (Throw e, w') => handler e w'
       end.

Definition emit (ev : event) (w : world) : world :=
  {| table := table w; calls := calls w; trace := trace w ++ [ev] |}.

(** ** The datastore client *)

(** [{ data, error }] as the client resolves it. *)
Record query_result := {
  data : option (gmap string value);
  error : option string
}.

(** One round trip to the datastore. The client does not throw: a call
    the datastore cannot serve resolves to an [error] and leaves the table
    as it was. *)
Definition served (ev : event) (rows : list row) (w : world) : world :=
  {| table := rows; calls := S (calls w); trace := trace w ++ [ev] |}.

Definition db_call (E : env) (ev : event)
    (run : list row → query_result * list row) : M query_result :=
  λ w,
    if db_fails E (calls w)
    then (Normal {| data := None; error := Some "datastore error" |},
          served ev (table w) w)
    else let '(r, rows) := run (table w) in (Normal r, served ev rows w).

(** [.from('user_tokens').select(cols).eq('user_id', v)
      .order('created_at', { ascending: false }).limit(1).single()] *)
Definition select_latest (E : env) (cols : list string) (v : option string)
    : M query_result :=
  db_call E (DbSelect v) (λ rows,
    match latest v rows with
    | Some r => ({| data := Some (select cols r); error := None |}, rows)
    | None => ({| data := None; error := Some "PGRST116" |}, rows)
    end).

(** [.from('user_tokens').update(patch).eq('user_id', v)] *)
Definition update (E : env) (patch : gmap string value) (v : option string)
    : M query_result :=
  db_call E (DbUpdate v patch) (λ rows,
    ({| data := None; error := None |}, update_where patch v rows)).

(** [.from('user_tokens').upsert(payload)] *)
Definition upsert (E : env) (payload : gmap string value) : M query_result :=
  db_call E (DbUpsert payload) (λ rows,
    ({| data := None; error := None |}, upsert_rows E payload rows)).

(** ** The provider *)

(** [fetch('https://api.x.com/2/oauth2/token', ...)] with the refresh
    grant; the promise rejects when no answer arrives. *)
Definition fetch_refresh (E : env) (sent_refresh_token : value) : M response :=
  λ w,
    let w' := emit (ProviderRefresh sent_refresh_token) w in
    match token_endpoint E sent_refresh_token with
    | Some r => (Normal r, w')
    | None => (Throw (Error "fetch failed"), w')
    end.

(** [response.json()] *)
Definition response_json (r : response) : M (gmap string value) :=
  match json r with
  | Some o => mret o
  | None => throw (Error "Unexpected end of JSON input")
  end.

(** [supabase(...).auth.exchangeCodeForSession(code)], [None] for an
    [error]. *)
Definition exchange (E : env) (code : string) : M (option session) :=
  λ w, (Normal (exchangeCodeForSession E code), emit (ProviderExchange code) w).

(** ** The handlers *)

Module Handlers.

(** [res.status(s).json(body)] and [res.redirect(url)] *)
Inductive http_response :=
| Json (status : Z) (body : gmap string value)
| Redirect (url : string).

(** The object literal [refreshToken] hands to [.update(...)]. *)
Definition refresh_patch (refreshedTokens userToken : gmap string value)
    : gmap string value :=
  {[ "access_token" := get refreshedTokens "access_token";
     "refresh_token" :=
       js_or (get refreshedTokens "refresh_token")
             (get userToken "refresh_token");
     "expires_at" := get refreshedTokens "expires_at" ]}.

(** The object literal [refreshToken] returns. *)
Definition refresh_result (refreshedTokens : gmap string value)
    : gmap string value :=
  {[ "message" := VStr "Token refreshed successfully.";
     "access_token" := get refreshedTokens "access_token" ]}.

(** [async function refreshToken(user_id)]. The [match] on the lookup's
    answer is [if (error || !userToken)]; the body text a refused grant
    comes with is only logged. *)
Definition refreshToken (E : env) (user_id : option string)
    : M (gmap string value) :=
  try_catch
    (r ← select_latest E ["refresh_token"; "expires_at"] user_id;
     match error r, data r with
     | None, Some userToken =>
         response ← fetch_refresh E (get userToken "refresh_token");
         if negb (ok response)
         then throw (Error "Failed to refresh token")
         else
           refreshedTokens ← response_json response;
           u ← update E (refresh_patch refreshedTokens userToken) user_id;
           match error u with
           | Some dbError => throw (Error "Failed to update tokens")
           | None =>
               mret (refresh_result refreshedTokens)
           end
     | _, _ => throw (Error "Tokens not found for user")
     end)
    (λ err, throw err).

Section GetToken.

Variable StringToNumber : string → option Z.

(** [router.get('/get-token', ...)]; [query] is [req.query], with the
    parameters the request has. *)
Definition get_token (E : env) (query : gmap string string)
    : M http_response :=
  let userId := query !! "user_id" in
  try_catch
    (r ← select_latest E ["access_token"; "refresh_token"; "expires_at"] userId;
     match error r, data r with
     | None, Some userToken =>
         let currentTime := (Date_now E / 1000)%Z in
         if js_gt StringToNumber (get userToken "expires_at") currentTime
         then mret (Json 200
                 {[ "access_token" := get userToken "access_token";
                    "expires_at" := get userToken "expires_at" ]})
         else
           refreshResponse ← refreshToken E userId;
           if truthy (get refreshResponse "error")
           then mret (Json 500 {[ "error" := VStr "Failed to refresh token" ]})
           else
             let refreshedData := refreshResponse in
             mret (Json 200
                 {[ "access_token" := get refreshedData "access_token";
                    "message" :=
                      VStr "Token refreshed and retrieved successfully." ]})
     | _, _ => mret (Json 404 {[ "error" := VStr "Tokens not found for user" ]})
     end)
    (λ err, mret (Json 500 {[ "error" := VStr "Failed to retrieve tokens" ]})).

End GetToken.

(** [router.get('/callback', ...)]: the exchange and the upsert happen
    under [if (code)], the redirect in every run that did not answer 500. *)
Definition callback (E : env) (query : gmap string string) : M http_response :=
  let code := query !! "code" in
  match code with
  | Some c =>
      if truthy (VStr c)
      then
        s ← exchange E c;
        match s with
        | None => mret (Json 500 {[ "error" := VStr "Failed to exchange code" ]})
        | Some session =>
            u ← upsert E
                  {[ "user_id" := VStr (session_user_id session);
                     "access_token" := session_access_token session;
                     "refresh_token" := session_refresh_token session;
                     "expires_at" := session_expires_at session ]};
            match error u with
            | Some dbError =>
                mret (Json 500 {[ "error" := VStr "Failed to save tokens" ]})
            | None => mret (Redirect "/")
            end
        end
      else mret (Redirect "/")
  | None => mret (Redirect "/")
  end.

End Handlers.

Import Handlers.

(** ** Reading the trace *)

Definition is_provider_call (ev : event) : bool :=
  match ev with
  | ProviderRefresh _ | ProviderExchange _ => true
  | _ => false
  end.

Definition is_refresh_call (ev : event) : bool :=
  match ev with
  | ProviderRefresh _ => true
  | _ => false
  end.

Definition is_update (ev : event) : bool :=
  match ev with
  | DbUpdate _ _ => true
  | _ => false
  end.

Definition is_write (ev : event) : bool :=
  match ev with
  | DbUpdate _ _ | DbUpsert _ => true
  | _ => false
  end.

Definition count (p : event → bool) (t : list event) : nat :=
  length (List.filter p t).

(** The calls a run added to the trace it started from. *)
Definition new_events (w w' : world) : list event :=
  drop (length (trace w)) (trace w').

(** ** The scenario of the specification

    A user with two rows, the later one holding access token A1, refresh
    token R1 and expiry 1000; a second user; a provider that answers the
    refresh grant with a new access token and expiry and no refresh
    token. *)

Module Scenario.

Definition stored : row :=
  {| user_id := "u1"; access_token := VStr "A1"; refresh_token := VStr "R1";
     expires_at := VNum 1000; created_at := 20 |}.

Definition older : row :=
  {| user_id := "u1"; access_token := VStr "A0"; refresh_token := VStr "R0";
     expires_at := VNum 400; created_at := 10 |}.

Definition other : row :=
  {| user_id := "u2"; access_token := VStr "B1"; refresh_token := VStr "S1";
     expires_at := VNum 700; created_at := 15 |}.

Definition start : world :=
  {| table := [older; other; stored]; calls := 0; trace := [] |}.

Definition query : gmap string string := {[ "user_id" := "u1" ]}.

Definition granted : response :=
  {| ok := true;
     json := Some {[ "access_token" := VStr "A2"; "expires_at" := VNum 2000 ]} |}.

Definition granted_empty_refresh_token : response :=
  {| ok := true;
     json := Some {[ "access_token" := VStr "A2"; "refresh_token" := VStr "";
                     "expires_at" := VNum 2000 ]} |}.

Definition rejected : response :=
  {| ok := false; json := Some {[ "error" := VStr "invalid_request" ]} |}.

(** The datastore serves every call; the clock shows [now_ms]; the
    provider answers [answer]. *)
Definition env_at (now_ms : Z) (answer : option response) : env :=
  {| Date_now := now_ms;
     db_fails := λ _, false;
     token_endpoint := λ _, answer;
     exchangeCodeForSession := λ _, None;
     upsert_rows := λ _ rows, rows |}.

(** No string is compared in the scenario; each one reads as NaN. *)
Definition nan_for_strings : string → option Z := λ _, None.

End Scenario.

(** ** Further situations

    The scenario's table and provider under a datastore that fails one
    call, a provider that rotates the refresh token or answers with
    [expires_in] in place of [expires_at], a record without an expiry, and
    an identity provider that knows one authorization code. *)

Module Cases.

(** As [Scenario.env_at], with the datastore failing the call that comes
    after [k] earlier ones. *)
Definition env_outage_at (k : nat) (now_ms : Z) (answer : option response)
    : env :=
  {| Date_now := now_ms;
     db_fails := λ n, Nat.eqb n k;
     token_endpoint := λ _, answer;
     exchangeCodeForSession := λ _, None;
     upsert_rows := λ _ rows, rows |}.

Definition granted_rotating : response :=
  {| ok := true;
     json := Some {[ "access_token" := VStr "A2"; "refresh_token" := VStr "R2";
                     "expires_at" := VNum 2000 ]} |}.

Definition granted_expires_in : response :=
  {| ok := true;
     json := Some {[ "access_token" := VStr "A2"; "expires_in" := VNum 7200 ]} |}.

Definition without_expiry : row :=
  {| user_id := "u4"; access_token := VStr "D1"; refresh_token := VStr "T1";
     expires_at := VNull; created_at := 40 |}.

Definition start_without_expiry : world :=
  {| table := [without_expiry]; calls := 0; trace := [] |}.

Definition signed_in : session :=
  {| session_user_id := "u5"; session_access_token := VStr "E1";
     session_refresh_token := VStr "V1"; session_expires_at := VNum 3000 |}.

(** A table keyed by its own row id: an upsert without an id adds a row. *)
Definition appended (payload : gmap string value) (rows : list row)
    : list row :=
  rows ++ [{| user_id := match get payload "user_id" with
                         | VStr s => s
                         | _ => ""
                         end;
              access_token := get payload "access_token";
              refresh_token := get payload "refresh_token";
              expires_at := get payload "expires_at";
              created_at := 50 |}].

(** The identity provider exchanges the code "c0" and no other; the
    datastore fails when [outage] says so. *)
Definition env_exchange (outage : nat → bool) : env :=
  {| Date_now := 999000;
     db_fails := outage;
     token_endpoint := λ _, None;
     exchangeCodeForSession :=
       λ code, if String.eqb code "c0" then Some signed_in else None;
     upsert_rows := appended |}.

End Cases.

(** ** Objects the handlers build and read *)

Lemma get_selected_refresh_token r :
  get (select ["refresh_token"; "expires_at"] r) "refresh_token"
  = refresh_token r.
Proof. reflexivity. Qed.

Lemma get_selected_expires_at r :
  get (select ["access_token"; "refresh_token"; "expires_at"] r) "expires_at"
  = expires_at r.
Proof. reflexivity. Qed.

Lemma get_selected_access_token r :
  get (select ["access_token"; "refresh_token"; "expires_at"] r) "access_token"
  = access_token r.
Proof. reflexivity. Qed.

(** ** The datastore's queries *)

Section StoreFacts.

Implicit Types (rows : list row) (v : option string) (r x : row).

Lemma sent_or_kept (p : gmap string value) (k : string) (old : value) :
  default old (stringified p !! k) = written (get p k) old.
Proof.
  unfold stringified, get.
  destruct (p !! k) as [new|] eqn:Hk.
  - destruct (decide (new = VUndefined)) as [->|Hne].
    + rewrite (proj2 (map_lookup_filter_None _ p k)); [reflexivity|].
      right. intros y Hy. cbn. rewrite Hk in Hy. injection Hy as <-. tauto.
    + rewrite (map_lookup_filter_Some_2 _ p k new Hk Hne). cbn.
      destruct new; [done|reflexivity..].
  - rewrite (proj2 (map_lookup_filter_None _ p k)); [reflexivity|].
    left. exact Hk.
Qed.

Lemma patched_access_token p r :
  access_token (patched p r) = written (get p "access_token") (access_token r).
Proof. apply sent_or_kept. Qed.

Lemma patched_refresh_token p r :
  refresh_token (patched p r)
  = written (get p "refresh_token") (refresh_token r).
Proof. apply sent_or_kept. Qed.

Lemma patched_expires_at p r :
  expires_at (patched p r) = written (get p "expires_at") (expires_at r).
Proof. apply sent_or_kept. Qed.

Lemma single_limit_1 rows : single (limit 1 rows) = head rows.
Proof. destruct rows as [|a [|b l]]; reflexivity. Qed.

Lemma latest_head v rows :
  latest v rows = head (order_created_at_desc (eq_user_id v rows)).
Proof. apply single_limit_1. Qed.

Lemma elem_of_insert_desc r x (l : list row) :
  x ∈ insert_desc r l ↔ x = r ∨ x ∈ l.
Proof.
  induction l as [|a l IH]; cbn.
  - rewrite elem_of_cons. tauto.
  - destruct (created_at a <=? created_at r)%Z; [apply elem_of_cons|].
    rewrite !elem_of_cons, IH. tauto.
Qed.

Lemma order_created_at_desc_cons r rows :
  order_created_at_desc (r :: rows)
  = insert_desc r (order_created_at_desc rows).
Proof. reflexivity. Qed.

Lemma elem_of_order_created_at_desc x rows :
  x ∈ order_created_at_desc rows ↔ x ∈ rows.
Proof.
  induction rows as [|a l IH]; [reflexivity|].
  rewrite order_created_at_desc_cons, elem_of_insert_desc, elem_of_cons, IH.
  reflexivity.
Qed.

Lemma head_insert_desc r h (l : list row) :
  head (insert_desc r l) = Some h →
  (created_at r ≤ created_at h)%Z ∧
  (h = r ∨ head l = Some h) ∧
  (∀ h', head l = Some h' → (created_at h' ≤ created_at h)%Z).
Proof.
  destruct l as [|a l]; cbn.
  - intros [= <-]. split; [lia|]. split; [tauto|]. discriminate.
  - destruct (created_at a <=? created_at r)%Z eqn:Hc; cbn; intros [= <-].
    + apply Z.leb_le in Hc. split; [lia|]. split; [tauto|].
      intros h' [= <-]. exact Hc.
    + apply Z.leb_gt in Hc. split; [lia|]. split; [tauto|].
      intros h' [= <-]. lia.
Qed.

Lemma head_order_created_at_desc h rows :
  head (order_created_at_desc rows) = Some h →
  h ∈ rows ∧ ∀ x, x ∈ rows → (created_at x ≤ created_at h)%Z.
Proof.
  revert h. induction rows as [|a l IH]; [discriminate|].
  intros h Hh. rewrite order_created_at_desc_cons in Hh.
  apply head_insert_desc in Hh as (Ha & Hor & Hprev).
  split.
  - destruct Hor as [->|Hl]; [apply elem_of_cons; tauto|].
    apply IH in Hl as [Hl _]. apply elem_of_cons; tauto.
  - intros x [->|Hx]%elem_of_cons; [exact Ha|].
    destruct (head (order_created_at_desc l)) as [h'|] eqn:Hl.
    + destruct (IH h' eq_refl) as [_ Hmax].
      specialize (Hmax x Hx). specialize (Hprev h' eq_refl). lia.
    + apply elem_of_order_created_at_desc in Hx.
      destruct (order_created_at_desc l);
        [by apply elem_of_nil in Hx|discriminate].
Qed.

(** The row the readers get is a row of the user, and none of the user's
    rows was created later. *)
Lemma latest_is_latest v rows r :
  latest v rows = Some r →
  r ∈ rows ∧ user_id r = eq_operand v ∧
  ∀ x, x ∈ rows → user_id x = eq_operand v →
       (created_at x ≤ created_at r)%Z.
Proof.
  rewrite latest_head. intros [Hin Hmax]%head_order_created_at_desc.
  unfold eq_user_id in *. apply list_elem_of_filter in Hin as [Hu Hin].
  split; [exact Hin|]. split; [exact Hu|].
  intros x Hx Hxu. apply Hmax. apply list_elem_of_filter. tauto.
Qed.

(** A user with a row has a latest row, a user without has none. *)
Lemma latest_None v rows :
  latest v rows = None ↔ ∀ x, x ∈ rows → user_id x ≠ eq_operand v.
Proof.
  rewrite latest_head. split.
  - intros H x Hx Hu.
    assert (Hin : x ∈ order_created_at_desc (eq_user_id v rows)).
    { apply elem_of_order_created_at_desc, list_elem_of_filter. tauto. }
    destruct (order_created_at_desc (eq_user_id v rows));
      [by apply elem_of_nil in Hin|discriminate].
  - intros H.
    destruct (order_created_at_desc (eq_user_id v rows)) as [|a l] eqn:Ho;
      [reflexivity|exfalso].
    assert (Hin : a ∈ order_created_at_desc (eq_user_id v rows))
      by (rewrite Ho; apply elem_of_cons; tauto).
    apply elem_of_order_created_at_desc, list_elem_of_filter in Hin as [Hu Hin].
    exact (H a Hin Hu).
Qed.

(** An update that keeps [user_id] and [created_at] does not change which
    row is the latest. *)
Section RowwiseUpdate.

Variable f : row → row.
Hypothesis f_user_id : ∀ x, user_id (f x) = user_id x.
Hypothesis f_created_at : ∀ x, created_at (f x) = created_at x.

Lemma eq_user_id_map v rows :
  eq_user_id v (map f rows) = map f (eq_user_id v rows).
Proof.
  unfold eq_user_id. induction rows as [|a l IH]; [reflexivity|].
  cbn [map]. rewrite !filter_cons, f_user_id, IH.
  destruct (decide (user_id a = eq_operand v)); reflexivity.
Qed.

Lemma insert_desc_map r (l : list row) :
  insert_desc (f r) (map f l) = map f (insert_desc r l).
Proof.
  induction l as [|a l IH]; [reflexivity|].
  cbn. rewrite !f_created_at.
  destruct (created_at a <=? created_at r)%Z; [reflexivity|].
  cbn. rewrite IH. reflexivity.
Qed.

Lemma order_created_at_desc_map rows :
  order_created_at_desc (map f rows) = map f (order_created_at_desc rows).
Proof.
  induction rows as [|a l IH]; [reflexivity|].
  cbn [map]. rewrite !order_created_at_desc_cons, IH.
  apply insert_desc_map.
Qed.

Lemma latest_map v rows : latest v (map f rows) = f <$> latest v rows.
Proof.
  rewrite !latest_head, eq_user_id_map, order_created_at_desc_map.
  destruct (order_created_at_desc (eq_user_id v rows)); reflexivity.
Qed.

End RowwiseUpdate.

Lemma latest_update_where p v rows :
  latest v (update_where p v rows) = patched p <$> latest v rows.
Proof.
  unfold update_where. rewrite latest_map.
  - destruct (latest v rows) as [r|] eqn:Hr; [|reflexivity].
    apply latest_is_latest in Hr as (_ & Hu & _). cbn.
    destruct (decide (user_id r = eq_operand v)); [reflexivity|contradiction].
  - intros x. destruct (decide (user_id x = eq_operand v)); reflexivity.
  - intros x. destruct (decide (user_id x = eq_operand v)); reflexivity.
Qed.

(** Row by row: what [.update(p).eq('user_id', v)] does to the table. *)
Lemma update_where_rowwise p v rows :
  Forall2 (λ old new,
      user_id new = user_id old ∧ created_at new = created_at old ∧
      if decide (user_id old = eq_operand v)
      then access_token new = written (get p "access_token") (access_token old)
           ∧ refresh_token new
             = written (get p "refresh_token") (refresh_token old)
           ∧ expires_at new = written (get p "expires_at") (expires_at old)
      else new = old)
    rows (update_where p v rows).
Proof.
  unfold update_where. induction rows as [|a l IH]; constructor; [|exact IH].
  destruct (decide (user_id a = eq_operand v)).
  - rewrite patched_access_token, patched_refresh_token, patched_expires_at.
    repeat split.
  - repeat split.
Qed.

End StoreFacts.

(** ** Runs of [refreshToken] *)

Section RefreshRuns.

Variable E : env.
Variable user_id : option string.
Variable w : world.

Let w1 : world := served (DbSelect user_id) (table w) w.

(** The first lookup finds nothing to refresh: the datastore fails, or
    the user has no row. *)
Lemma refreshToken_not_found :
  db_fails E (calls w) = true ∨ latest user_id (table w) = None →
  refreshToken E user_id w = (Throw (Error "Tokens not found for user"), w1).
Proof.
  intros H. unfold refreshToken, try_catch, mbind, M_bind, select_latest, db_call.
  destruct (db_fails E (calls w)) eqn:Hf; [reflexivity|].
  destruct H as [H|H]; [discriminate|]. rewrite H. reflexivity.
Qed.

Variable r : row.
Hypothesis Hup : db_fails E (calls w) = false.
Hypothesis Hlatest : latest user_id (table w) = Some r.

Let w2 : world := emit (ProviderRefresh (refresh_token r)) w1.

Lemma refreshToken_fetch_rejects :
  token_endpoint E (refresh_token r) = None →
  refreshToken E user_id w = (Throw (Error "fetch failed"), w2).
Proof.
  intros H. unfold refreshToken, try_catch, mbind, M_bind, select_latest, db_call.
  rewrite Hup, Hlatest. cbn [error data]. unfold fetch_refresh.
  rewrite get_selected_refresh_token, H. reflexivity.
Qed.

Variable resp : response.
Hypothesis Hresp : token_endpoint E (refresh_token r) = Some resp.

Lemma refreshToken_not_ok :
  ok resp = false →
  refreshToken E user_id w = (Throw (Error "Failed to refresh token"), w2).
Proof.
  intros H. unfold refreshToken, try_catch, mbind, M_bind, select_latest, db_call.
  rewrite Hup, Hlatest. cbn [error data]. unfold fetch_refresh.
  rewrite get_selected_refresh_token, Hresp, H. reflexivity.
Qed.

Hypothesis Hok : ok resp = true.

Lemma refreshToken_body_unreadable :
  json resp = None →
  refreshToken E user_id w
  = (Throw (Error "Unexpected end of JSON input"), w2).
Proof.
  intros H. unfold refreshToken, try_catch, mbind, M_bind, select_latest, db_call.
  rewrite Hup, Hlatest. cbn [error data]. unfold fetch_refresh.
  rewrite get_selected_refresh_token, Hresp, Hok. cbn [negb].
  unfold response_json. rewrite H. reflexivity.
Qed.

Variable refreshedTokens : gmap string value.
Hypothesis Hjson : json resp = Some refreshedTokens.

Let patch : gmap string value :=
  refresh_patch refreshedTokens (select ["refresh_token"; "expires_at"] r).

Lemma refreshToken_update_fails :
  db_fails E (S (calls w)) = true →
  refreshToken E user_id w
  = (Throw (Error "Failed to update tokens"),
     served (DbUpdate user_id patch) (table w) w2).
Proof.
  intros H. unfold refreshToken, try_catch, mbind, M_bind, select_latest, db_call.
  rewrite Hup, Hlatest. cbn [error data]. unfold fetch_refresh.
  rewrite get_selected_refresh_token, Hresp, Hok. cbn [negb].
  unfold response_json. rewrite Hjson. unfold mret, M_ret, update, db_call.
  cbn [emit served calls table]. rewrite H. reflexivity.
Qed.

Lemma refreshToken_succeeds :
  db_fails E (S (calls w)) = false →
  refreshToken E user_id w
  = (Normal (refresh_result refreshedTokens),
     served (DbUpdate user_id patch)
            (update_where patch user_id (table w)) w2).
Proof.
  intros H. unfold refreshToken, try_catch, mbind, M_bind, select_latest, db_call.
  rewrite Hup, Hlatest. cbn [error data]. unfold fetch_refresh.
  rewrite get_selected_refresh_token, Hresp, Hok. cbn [negb].
  unfold response_json. rewrite Hjson. unfold mret, M_ret, update, db_call.
  cbn [emit served calls table]. rewrite H. reflexivity.
Qed.

End RefreshRuns.

(** Whatever happens, [refreshToken] throws or returns its own literal. *)
Lemma refreshToken_cases (E : env) (user_id : option string) (w : world) :
  (∃ e w', refreshToken E user_id w = (Throw e, w')) ∨
  (∃ refreshedTokens w',
      refreshToken E user_id w = (Normal (refresh_result refreshedTokens), w')).
Proof.
  destruct (db_fails E (calls w)) eqn:Hup.
  { left. eexists _, _. apply refreshToken_not_found. tauto. }
  destruct (latest user_id (table w)) as [r|] eqn:Hr.
  2:{ left. eexists _, _. apply refreshToken_not_found. tauto. }
  destruct (token_endpoint E (refresh_token r)) as [resp|] eqn:Hresp.
  2:{ left. eexists _, _. eapply refreshToken_fetch_rejects; eassumption. }
  destruct (ok resp) eqn:Hok.
  2:{ left. eexists _, _. eapply refreshToken_not_ok; eassumption. }
  destruct (json resp) as [o|] eqn:Hjson.
  2:{ left. eexists _, _. eapply refreshToken_body_unreadable; eassumption. }
  destruct (db_fails E (S (calls w))) eqn:Hup2.
  - left. eexists _, _. eapply refreshToken_update_fails; eassumption.
  - right. eexists _, _. eapply refreshToken_succeeds; eassumption.
Qed.

(** ** Runs of [GET /get-token] *)

Section GetTokenRuns.

Variable StringToNumber : string → option Z.
Variable E : env.
Variable query : gmap string string.
Variable w : world.

Let userId : option string := query !! "user_id".
Let w1 : world := served (DbSelect userId) (table w) w.

Lemma get_token_not_found :
  db_fails E (calls w) = true ∨ latest userId (table w) = None →
  get_token StringToNumber E query w
  = (Normal (Json 404 {[ "error" := VStr "Tokens not found for user" ]}), w1).
Proof.
  intros H. unfold get_token, try_catch, mbind, M_bind, select_latest, db_call.
  destruct (db_fails E (calls w)) eqn:Hf; [reflexivity|].
  destruct H as [H|H]; [discriminate|].
  fold userId. rewrite H. reflexivity.
Qed.

Variable r : row.
Hypothesis Hup : db_fails E (calls w) = false.
Hypothesis Hlatest : latest userId (table w) = Some r.

Lemma get_token_fresh :
  js_gt StringToNumber (expires_at r) (Date_now E / 1000) = true →
  get_token StringToNumber E query w
  = (Normal (Json 200 {[ "access_token" := access_token r;
                         "expires_at" := expires_at r ]}), w1).
Proof.
  intros H. unfold get_token, try_catch, mbind, M_bind, select_latest, db_call.
  fold userId. rewrite Hup, Hlatest. cbn [error data].
  rewrite get_selected_expires_at, get_selected_access_token, H.
  reflexivity.
Qed.

(** The stored token is not returned: the handler's answer is decided by
    [refreshToken]. *)
Lemma get_token_expired :
  js_gt StringToNumber (expires_at r) (Date_now E / 1000) = false →
  get_token StringToNumber E query w
  = match refreshToken E userId w1 with
    | (Normal refreshResponse, w') =>
        (Normal
           (if truthy (get refreshResponse "error")
            then Json 500 {[ "error" := VStr "Failed to refresh token" ]}
            else Json 200
                   {[ "access_token" := get refreshResponse "access_token";
                      "message" :=
                        VStr "Token refreshed and retrieved successfully." ]}),
         w')
    | (Throw err, w') =>
        (Normal (Json 500 {[ "error" := VStr "Failed to retrieve tokens" ]}),
         w')
    end.
Proof.
  intros H. unfold get_token, try_catch, mbind, M_bind, select_latest, db_call.
  fold userId. rewrite Hup, Hlatest. cbn [error data].
  rewrite get_selected_expires_at, H. fold w1.
  destruct (refreshToken E userId w1) as [[o|e] w']; [|reflexivity].
  destruct (truthy (get o "error")); reflexivity.
Qed.

End GetTokenRuns.

(** ** Traces *)

Lemma new_events_app (w w' : world) (t : list event) :
  trace w' = trace w ++ t → new_events w w' = t.
Proof. intros H. unfold new_events. rewrite H. apply drop_app_length. Qed.

Lemma new_events_served (w : world) (ev : event) (rows : list row) :
  new_events w (served ev rows w) = [ev].
Proof. apply new_events_app. reflexivity. Qed.

(** [refreshToken] begins with its own lookup of the latest row. *)
Lemma refreshToken_begins (E : env) (user_id : option string) (w : world) :
  ∃ t, trace (refreshToken E user_id w).2 = trace w ++ DbSelect user_id :: t.
Proof.
  destruct (db_fails E (calls w)) eqn:Hup.
  { rewrite refreshToken_not_found by tauto. by eexists. }
  destruct (latest user_id (table w)) as [r|] eqn:Hr.
  2:{ rewrite refreshToken_not_found by tauto. by eexists. }
  destruct (token_endpoint E (refresh_token r)) as [resp|] eqn:Hresp.
  2:{ erewrite refreshToken_fetch_rejects by eassumption. cbn.
      rewrite <- app_assoc. by eexists. }
  destruct (ok resp) eqn:Hok.
  2:{ erewrite refreshToken_not_ok by eassumption. cbn.
      rewrite <- app_assoc. by eexists. }
  destruct (json resp) as [o|] eqn:Hjson.
  2:{ erewrite refreshToken_body_unreadable by eassumption. cbn.
      rewrite <- app_assoc. by eexists. }
  destruct (db_fails E (S (calls w))) eqn:Hup2.
  - erewrite refreshToken_update_fails by eassumption. cbn.
    rewrite <- !app_assoc. by eexists.
  - erewrite refreshToken_succeeds by eassumption. cbn.
    rewrite <- !app_assoc. by eexists.
Qed.

(** The two answers that carry a token differ in their properties: only
    the stored token comes with [expires_at], only the refreshed one with
    [message]. *)
Lemma refreshed_answer_is_not_stored_answer (a m a' x : value) :
  Normal (Json 200 {[ "access_token" := a; "message" := m ]})
  ≠ Normal (Json 200 {[ "access_token" := a'; "expires_at" := x ]}).
Proof.
  intros H.
  assert (H' := f_equal (λ c, match c with
                               | Normal (Json _ body) => body !! "expires_at"
                               | _ => None
                               end) H).
  vm_compute in H'. discriminate H'.
Qed.

Lemma refresh_result_no_error (refreshedTokens : gmap string value) :
  get (refresh_result refreshedTokens) "error" = VUndefined.
Proof. reflexivity. Qed.

Lemma refresh_result_access_token (refreshedTokens : gmap string value) :
  get (refresh_result refreshedTokens) "access_token"
  = get refreshedTokens "access_token".
Proof. reflexivity. Qed.

Lemma gt_number (S2N : string → option Z) (e now : Z) :
  js_gt S2N (VNum e) now = bool_decide (now < e)%Z.
Proof.
  unfold js_gt, ToNumber. destruct (Z.ltb_spec now e).
  - by rewrite bool_decide_eq_true_2.
  - rewrite bool_decide_eq_false_2; [done|lia].
Qed.

(** ** The claims about [GET /get-token] *)

(** C1. With the latest record of the user read from the table and [now]
    the clock in whole seconds, the handler answers with the stored token
    exactly when the record's [expires_at] is strictly greater than [now];
    and [refreshToken] is entered (its lookup is the second call that
    leaves the process) exactly when [expires_at] is at most [now], the
    case [expires_at = now] included. *)
Theorem get_token_valid_iff_expires_later
    (S2N : string → option Z) (E : env) (query : gmap string string)
    (w : world) (r : row) (e : Z) :
  db_fails E (calls w) = false →
  latest (query !! "user_id") (table w) = Some r →
  expires_at r = VNum e →
  let now := (Date_now E / 1000)%Z in
  let out := get_token S2N E query w in
  (out.1 = Normal (Json 200 {[ "access_token" := access_token r;
                               "expires_at" := expires_at r ]})
   ↔ (now < e)%Z)
  ∧ ((∃ t, new_events w out.2
           = DbSelect (query !! "user_id") :: DbSelect (query !! "user_id") :: t)
     ↔ (e ≤ now)%Z)
  ∧ (e = now →
     ∃ t, new_events w out.2
          = DbSelect (query !! "user_id") :: DbSelect (query !! "user_id") :: t).
Proof.
  intros Hup Hr He now out.
  assert (Hcases :
    ((now < e)%Z ∧
     out = (Normal (Json 200 {[ "access_token" := access_token r;
                                "expires_at" := expires_at r ]}),
            served (DbSelect (query !! "user_id")) (table w) w)) ∨
    ((e ≤ now)%Z ∧
     (∀ a x, out.1 ≠ Normal (Json 200 {[ "access_token" := a;
                                         "expires_at" := x ]})) ∧
     ∃ t, new_events w out.2
          = DbSelect (query !! "user_id") :: DbSelect (query !! "user_id") :: t)).
  { destruct (Z.lt_ge_cases now e) as [Hlt|Hge].
    - left. split; [exact Hlt|]. subst out.
      apply get_token_fresh; [assumption..|].
      rewrite He, gt_number. by apply bool_decide_eq_true_2.
    - right. split; [exact Hge|]. subst out.
      rewrite (get_token_expired S2N E query w r) by
        (try assumption; rewrite He, gt_number; apply bool_decide_eq_false_2; lia).
      pose proof (refreshToken_begins E (query !! "user_id")
                    (served (DbSelect (query !! "user_id")) (table w) w))
        as [t Ht].
      split.
      + intros a x.
        destruct (refreshToken_cases E (query !! "user_id")
                    (served (DbSelect (query !! "user_id")) (table w) w))
          as [(err & w' & ->)|(o & w' & ->)]; cbn.
        * discriminate.
        * rewrite refresh_result_no_error. cbn [truthy].
          apply refreshed_answer_is_not_stored_answer.
      + exists t. apply new_events_app.
        destruct (refreshToken E (query !! "user_id") _) as [[o|err] w'];
          cbn in Ht |- *; rewrite Ht; cbn; by rewrite <- app_assoc. }
  destruct Hcases as [[Hlt ->]|(Hge & Hne & t & Ht)].
  - split; [tauto|]. cbn [snd]. rewrite new_events_served.
    split; [|lia]. split; [intros [t' [=]]|lia].
  - split; [|split].
    + split; [intros H; by apply Hne in H|lia].
    + split; [done|by exists t].
    + intros _. by exists t.
Qed.

Lemma get_token_valid_iff_expires_later_witness :
  let E := Scenario.env_at 1000999 (Some Scenario.granted) in
  let out :=
    get_token Scenario.nan_for_strings E Scenario.query Scenario.start in
  out.1 ≠ Normal (Json 200 {[ "access_token" := VStr "A1";
                              "expires_at" := VNum 1000 ]})
  ∧ ∃ t, new_events Scenario.start out.2
         = DbSelect (Some "u1") :: DbSelect (Some "u1") :: t.
Proof.
  pose proof (get_token_valid_iff_expires_later Scenario.nan_for_strings
                (Scenario.env_at 1000999 (Some Scenario.granted))
                Scenario.query Scenario.start Scenario.stored 1000
                eq_refl eq_refl eq_refl) as (Hvalid & _ & Hequal).
  split.
  - intros H. apply Hvalid in H. vm_compute in H. discriminate H.
  - apply Hequal. reflexivity.
Defined.

(** C5. A record read from the table whose [expires_at] is strictly
    greater than the current time is answered as it is stored: the answer
    carries the stored [access_token] and [expires_at], the table is left as
    it was, and the lookup is the only call made: no provider call, no
    write. *)
Theorem get_token_fresh_untouched
    (S2N : string → option Z) (E : env) (query : gmap string string)
    (w : world) (r : row) (e : Z) :
  db_fails E (calls w) = false →
  latest (query !! "user_id") (table w) = Some r →
  expires_at r = VNum e →
  (Date_now E / 1000 < e)%Z →
  let out := get_token S2N E query w in
  out.1 = Normal (Json 200 {[ "access_token" := access_token r;
                              "expires_at" := VNum e ]})
  ∧ table out.2 = table w
  ∧ new_events w out.2 = [DbSelect (query !! "user_id")]
  ∧ count is_provider_call (new_events w out.2) = 0
  ∧ count is_write (new_events w out.2) = 0.
Proof.
  intros Hup Hr He Hlt out. subst out.
  rewrite (get_token_fresh S2N E query w r) by
    (try assumption; rewrite He, gt_number; by apply bool_decide_eq_true_2).
  cbn [fst snd]. rewrite new_events_served, He. repeat split.
Qed.

Lemma get_token_fresh_untouched_witness :
  let E := Scenario.env_at 999000 (Some Scenario.granted) in
  let out :=
    get_token Scenario.nan_for_strings E Scenario.query Scenario.start in
  out.1 = Normal (Json 200 {[ "access_token" := VStr "A1";
                              "expires_at" := VNum 1000 ]})
  ∧ table out.2 = table Scenario.start
  ∧ new_events Scenario.start out.2 = [DbSelect (Some "u1")]
  ∧ count is_provider_call (new_events Scenario.start out.2) = 0
  ∧ count is_write (new_events Scenario.start out.2) = 0.
Proof.
  apply (get_token_fresh_untouched Scenario.nan_for_strings
           (Scenario.env_at 999000 (Some Scenario.granted))
           Scenario.query Scenario.start Scenario.stored 1000);
    reflexivity.
Defined.

(** C6. For a user without a row in the table the handler answers 404 with
    an error body, whatever the datastore and the provider would do; the
    lookup is the only call made (no provider call, no write) and the table
    is left as it was. *)
Theorem get_token_no_record
    (S2N : string → option Z) (E : env) (query : gmap string string)
    (w : world) :
  (∀ x, x ∈ table w → user_id x ≠ eq_operand (query !! "user_id")) →
  let out := get_token S2N E query w in
  out.1 = Normal (Json 404 {[ "error" := VStr "Tokens not found for user" ]})
  ∧ table out.2 = table w
  ∧ new_events w out.2 = [DbSelect (query !! "user_id")]
  ∧ count is_provider_call (new_events w out.2) = 0
  ∧ count is_write (new_events w out.2) = 0.
Proof.
  intros Hnone out. subst out.
  rewrite get_token_not_found by (right; by apply latest_None).
  cbn [fst snd]. rewrite new_events_served. repeat split.
Qed.

Lemma get_token_no_record_witness :
  let E := Scenario.env_at 999000 (Some Scenario.granted) in
  let out :=
    get_token Scenario.nan_for_strings E {[ "user_id" := "u3" ]}
      Scenario.start in
  out.1 = Normal (Json 404 {[ "error" := VStr "Tokens not found for user" ]})
  ∧ table out.2 = table Scenario.start
  ∧ new_events Scenario.start out.2 = [DbSelect (Some "u3")]
  ∧ count is_provider_call (new_events Scenario.start out.2) = 0
  ∧ count is_write (new_events Scenario.start out.2) = 0.
Proof.
  assert (Hnone : ∀ x, x ∈ table Scenario.start → user_id x ≠ "u3").
  { intros x Hx.
    repeat (apply elem_of_cons in Hx as [->|Hx]; [discriminate|]).
    by apply elem_of_nil in Hx. }
  exact (get_token_no_record Scenario.nan_for_strings
           (Scenario.env_at 999000 (Some Scenario.granted))
           {[ "user_id" := "u3" ]} Scenario.start Hnone).
Defined.

(** C7. A record read from the table whose [expires_at] is at most the
    current time and a provider that grants the refresh: the handler makes
    exactly one refresh call to the provider and exactly one update. When
    the datastore serves the update, the answer is the provider's new
    [access_token] with a [message], which sets it apart from the answer
    for a token that was still valid (that one carries [expires_at] and no
    [message]); when the datastore refuses the update, the answer is 500. *)
Theorem get_token_refreshes_once
    (S2N : string → option Z) (E : env) (query : gmap string string)
    (w : world) (r : row) (e : Z) (resp : response)
    (refreshedTokens : gmap string value) :
  db_fails E (calls w) = false →
  db_fails E (S (calls w)) = false →
  latest (query !! "user_id") (table w) = Some r →
  expires_at r = VNum e →
  (e ≤ Date_now E / 1000)%Z →
  token_endpoint E (refresh_token r) = Some resp →
  ok resp = true →
  json resp = Some refreshedTokens →
  let userId := query !! "user_id" in
  let out := get_token S2N E query w in
  new_events w out.2
  = [DbSelect userId; DbSelect userId; ProviderRefresh (refresh_token r);
     DbUpdate userId
       (refresh_patch refreshedTokens
          (select ["refresh_token"; "expires_at"] r))]
  ∧ count is_refresh_call (new_events w out.2) = 1
  ∧ count is_update (new_events w out.2) = 1
  ∧ count is_provider_call (new_events w out.2) = 1
  ∧ count is_write (new_events w out.2) = 1
  ∧ (db_fails E (S (S (calls w))) = false →
     out.1 = Normal (Json 200
               {[ "access_token" := get refreshedTokens "access_token";
                  "message" :=
                    VStr "Token refreshed and retrieved successfully." ]})
     ∧ ∀ a x, out.1 ≠ Normal (Json 200 {[ "access_token" := a;
                                           "expires_at" := x ]}))
  ∧ (db_fails E (S (S (calls w))) = true →
     out.1 = Normal (Json 500 {[ "error" := VStr "Failed to retrieve tokens" ]})).
Proof.
  intros Hup0 Hup1 Hr He Hle Hresp Hok Hjson userId out.
  assert (Hevents : ∀ w' : world,
    trace w'
    = ((trace w ++ [DbSelect userId]) ++ [DbSelect userId])
        ++ [ProviderRefresh (refresh_token r)]
        ++ [DbUpdate userId
              (refresh_patch refreshedTokens
                 (select ["refresh_token"; "expires_at"] r))] →
    new_events w w'
    = [DbSelect userId; DbSelect userId; ProviderRefresh (refresh_token r);
       DbUpdate userId
         (refresh_patch refreshedTokens
            (select ["refresh_token"; "expires_at"] r))]).
  { intros w' Hw'. apply new_events_app. rewrite Hw'.
    by rewrite <- !app_assoc. }
  subst out.
  rewrite (get_token_expired S2N E query w r) by
    (try assumption; rewrite He, gt_number; apply bool_decide_eq_false_2; lia).
  fold userId.
  destruct (db_fails E (S (S (calls w)))) eqn:Hup2.
  - rewrite (refreshToken_update_fails E userId
               (served (DbSelect userId) (table w) w) r Hup1 Hr resp Hresp Hok
               refreshedTokens Hjson Hup2).
    cbn [fst snd]. rewrite Hevents by (cbn; by rewrite <- !app_assoc).
    repeat split; discriminate.
  - rewrite (refreshToken_succeeds E userId
               (served (DbSelect userId) (table w) w) r Hup1 Hr resp Hresp Hok
               refreshedTokens Hjson Hup2).
    rewrite refresh_result_no_error, refresh_result_access_token.
    cbn [truthy fst snd]. rewrite Hevents by (cbn; by rewrite <- !app_assoc).
    do 5 (split; [reflexivity|]). split; [|discriminate].
    intros _. split; [reflexivity|].
    intros a x. apply refreshed_answer_is_not_stored_answer.
Qed.

Lemma get_token_refreshes_once_witness :
  let E := Scenario.env_at 1000000 (Some Scenario.granted) in
  let out :=
    get_token Scenario.nan_for_strings E Scenario.query Scenario.start in
  out.1 = Normal (Json 200
            {[ "access_token" := VStr "A2";
               "message" := VStr "Token refreshed and retrieved successfully." ]})
  ∧ count is_refresh_call (new_events Scenario.start out.2) = 1
  ∧ count is_update (new_events Scenario.start out.2) = 1.
Proof.
  destruct (get_token_refreshes_once Scenario.nan_for_strings
              (Scenario.env_at 1000000 (Some Scenario.granted))
              Scenario.query Scenario.start Scenario.stored 1000
              Scenario.granted
              {[ "access_token" := VStr "A2"; "expires_at" := VNum 2000 ]}
              eq_refl eq_refl eq_refl eq_refl ltac:(vm_compute; discriminate)
              eq_refl eq_refl eq_refl)
    as (_ & Hrefresh & Hupdate & _ & _ & Hserved & _).
  destruct (Hserved eq_refl) as [Hanswer _].
  repeat split; assumption.
Defined.

(** C8. [refreshToken] throws or returns an object without an [error]
    property, so [GET /get-token] never answers 500 "Failed to refresh
    token"; when [refreshToken] throws, the handler's [catch] answers 500
    "Failed to retrieve tokens". *)
Theorem refresh_error_branch_unreachable
    (S2N : string → option Z) (E : env) (query : gmap string string)
    (w : world) :
  (∀ user_id w0,
      (∃ err, (refreshToken E user_id w0).1 = Throw err) ∨
      (∃ refreshResponse,
          (refreshToken E user_id w0).1 = Normal refreshResponse
          ∧ refreshResponse !! "error" = None))
  ∧ (get_token S2N E query w).1
    ≠ Normal (Json 500 {[ "error" := VStr "Failed to refresh token" ]})
  ∧ (∀ r err w',
      db_fails E (calls w) = false →
      latest (query !! "user_id") (table w) = Some r →
      js_gt S2N (expires_at r) (Date_now E / 1000) = false →
      refreshToken E (query !! "user_id")
        (served (DbSelect (query !! "user_id")) (table w) w)
      = (Throw err, w') →
      get_token S2N E query w
      = (Normal (Json 500 {[ "error" := VStr "Failed to retrieve tokens" ]}),
         w')).
Proof.
  split; [|split].
  - intros user_id w0.
    destruct (refreshToken_cases E user_id w0)
      as [(err & w' & ->)|(o & w' & ->)].
    + left. by exists err.
    + right. exists (refresh_result o). split; reflexivity.
  - destruct (db_fails E (calls w)) eqn:Hup.
    { rewrite get_token_not_found by tauto. discriminate. }
    destruct (latest (query !! "user_id") (table w)) as [r|] eqn:Hr.
    2:{ rewrite get_token_not_found by tauto. discriminate. }
    destruct (js_gt S2N (expires_at r) (Date_now E / 1000)) eqn:Hgt.
    { rewrite (get_token_fresh S2N E query w r) by assumption. discriminate. }
    rewrite (get_token_expired S2N E query w r) by assumption.
    destruct (refreshToken_cases E (query !! "user_id")
                (served (DbSelect (query !! "user_id")) (table w) w))
      as [(err & w' & ->)|(o & w' & ->)]; cbn [fst].
    + intros H.
      assert (H' := f_equal (λ c, match c with
                                   | Normal (Json _ body) => body !! "error"
                                   | _ => None
                                   end) H).
      vm_compute in H'. discriminate H'.
    + rewrite refresh_result_no_error. cbn [truthy]. discriminate.
  - intros r err w' Hup Hr Hgt Hthrow.
    rewrite (get_token_expired S2N E query w r) by assumption.
    rewrite Hthrow. reflexivity.
Qed.

Lemma refresh_error_branch_unreachable_witness :
  let E := Scenario.env_at 1000000 (Some Scenario.rejected) in
  get_token Scenario.nan_for_strings E Scenario.query Scenario.start
  = (Normal (Json 500 {[ "error" := VStr "Failed to retrieve tokens" ]}),
     {| table := table Scenario.start; calls := 2;
        trace := [DbSelect (Some "u1"); DbSelect (Some "u1");
                  ProviderRefresh (VStr "R1")] |}).
Proof.
  exact (proj2 (proj2 (refresh_error_branch_unreachable
                         Scenario.nan_for_strings
                         (Scenario.env_at 1000000 (Some Scenario.rejected))
                         Scenario.query Scenario.start))
           Scenario.stored (Error "Failed to refresh token") _
           eq_refl eq_refl eq_refl eq_refl).
Defined.

(** ** The claim about [GET /callback] *)

Lemma new_events_none (w : world) : new_events w w = [].
Proof. apply new_events_app. by rewrite app_nil_r. Qed.

(** C9. Without a [code] query parameter the handler answers with a
    redirect to "/" and the world is as before: no code exchange, no
    write. *)
Theorem callback_without_code
    (E : env) (query : gmap string string) (w : world) :
  query !! "code" = None →
  let out := callback E query w in
  out.1 = Normal (Redirect "/")
  ∧ out.2 = w
  ∧ count is_provider_call (new_events w out.2) = 0
  ∧ count is_write (new_events w out.2) = 0.
Proof.
  intros Hcode out. subst out. unfold callback. rewrite Hcode.
  cbn [mret M_ret fst snd]. rewrite new_events_none. repeat split.
Qed.

Lemma callback_without_code_witness :
  let out :=
    callback (Scenario.env_at 999000 None) Scenario.query Scenario.start in
  out.1 = Normal (Redirect "/")
  ∧ out.2 = Scenario.start
  ∧ count is_provider_call (new_events Scenario.start out.2) = 0
  ∧ count is_write (new_events Scenario.start out.2) = 0.
Proof.
  apply (callback_without_code (Scenario.env_at 999000 None)
           Scenario.query Scenario.start).
  reflexivity.
Defined.

(** ** The claims about [refreshToken] *)

Lemma written_same (v : value) : written v v = v.
Proof. by destruct v. Qed.

Lemma refresh_patch_access_token (refreshedTokens userToken : gmap string value) :
  get (refresh_patch refreshedTokens userToken) "access_token"
  = get refreshedTokens "access_token".
Proof. reflexivity. Qed.

Lemma refresh_patch_refresh_token (refreshedTokens userToken : gmap string value) :
  get (refresh_patch refreshedTokens userToken) "refresh_token"
  = js_or (get refreshedTokens "refresh_token") (get userToken "refresh_token").
Proof. reflexivity. Qed.

Lemma refresh_patch_expires_at (refreshedTokens userToken : gmap string value) :
  get (refresh_patch refreshedTokens userToken) "expires_at"
  = get refreshedTokens "expires_at".
Proof. reflexivity. Qed.

Section GrantedRefresh.

Variable E : env.
Variable user_id : option string.
Variable w : world.
Variable r : row.
Variable resp : response.
Variable refreshedTokens : gmap string value.
Hypothesis Hup : db_fails E (calls w) = false.
Hypothesis Hlatest : latest user_id (table w) = Some r.
Hypothesis Hresp : token_endpoint E (refresh_token r) = Some resp.
Hypothesis Hok : ok resp = true.
Hypothesis Hjson : json resp = Some refreshedTokens.

Let patch : gmap string value :=
  refresh_patch refreshedTokens (select ["refresh_token"; "expires_at"] r).

(** The update is attempted once, whether the datastore serves it or
    not. *)
Lemma granted_refresh_events :
  new_events w (refreshToken E user_id w).2
  = [DbSelect user_id; ProviderRefresh (refresh_token r);
     DbUpdate user_id patch].
Proof.
  apply new_events_app.
  destruct (db_fails E (S (calls w))) eqn:Hup2.
  - erewrite refreshToken_update_fails by eassumption.
    cbn. by rewrite <- !app_assoc.
  - erewrite refreshToken_succeeds by eassumption.
    cbn. by rewrite <- !app_assoc.
Qed.

Hypothesis Hup2 : db_fails E (S (calls w)) = false.

Lemma granted_refresh_table :
  table (refreshToken E user_id w).2 = update_where patch user_id (table w).
Proof. erewrite refreshToken_succeeds by eassumption. reflexivity. Qed.

Lemma granted_refresh_latest :
  latest user_id (table (refreshToken E user_id w).2) = Some (patched patch r).
Proof. by rewrite granted_refresh_table, latest_update_where, Hlatest. Qed.

End GrantedRefresh.

(** C3. When the provider answers the refresh grant with a status that is
    not a success, [refreshToken] throws "Failed to refresh token" having
    made its lookup and the provider call and nothing else: no write, the
    table as it was. And a run of [refreshToken] in which a write leaves
    the process is a run in which the provider answered with success. *)
Theorem refresh_rejected_writes_nothing
    (E : env) (user_id : option string) (w : world) :
  (∀ r resp,
      db_fails E (calls w) = false →
      latest user_id (table w) = Some r →
      token_endpoint E (refresh_token r) = Some resp →
      ok resp = false →
      let out := refreshToken E user_id w in
      out.1 = Throw (Error "Failed to refresh token")
      ∧ table out.2 = table w
      ∧ new_events w out.2
        = [DbSelect user_id; ProviderRefresh (refresh_token r)]
      ∧ count is_write (new_events w out.2) = 0)
  ∧ (count is_write (new_events w (refreshToken E user_id w).2) ≠ 0 →
     ∃ r resp,
       latest user_id (table w) = Some r
       ∧ token_endpoint E (refresh_token r) = Some resp
       ∧ ok resp = true).
Proof.
  split.
  - intros r resp Hup Hr Hresp Hok out. subst out.
    erewrite refreshToken_not_ok by eassumption. cbn [fst snd].
    match goal with
    | |- context [new_events w ?w'] =>
        rewrite (new_events_app w w'
                   [DbSelect user_id; ProviderRefresh (refresh_token r)])
          by (cbn; by rewrite <- !app_assoc)
    end.
    repeat split.
  - destruct (db_fails E (calls w)) eqn:Hup.
    { rewrite refreshToken_not_found by tauto. cbn [snd].
      rewrite new_events_served. intros H. by destruct H. }
    destruct (latest user_id (table w)) as [r|] eqn:Hr.
    2:{ rewrite refreshToken_not_found by tauto. cbn [snd].
        rewrite new_events_served. intros H. by destruct H. }
    destruct (token_endpoint E (refresh_token r)) as [resp|] eqn:Hresp.
    2:{ erewrite refreshToken_fetch_rejects by eassumption. cbn [snd].
        erewrite new_events_app by (cbn; by rewrite <- !app_assoc).
        intros H. by destruct H. }
    destruct (ok resp) eqn:Hok.
    2:{ erewrite refreshToken_not_ok by eassumption. cbn [snd].
        erewrite new_events_app by (cbn; by rewrite <- !app_assoc).
        intros H. by destruct H. }
    intros _. by exists r, resp.
Qed.

Lemma refresh_rejected_writes_nothing_witness :
  let E := Scenario.env_at 1000000 (Some Scenario.rejected) in
  let out := refreshToken E (Some "u1") Scenario.start in
  out.1 = Throw (Error "Failed to refresh token")
  ∧ table out.2 = [Scenario.older; Scenario.other; Scenario.stored]
  ∧ new_events Scenario.start out.2
    = [DbSelect (Some "u1"); ProviderRefresh (VStr "R1")]
  ∧ count is_write (new_events Scenario.start out.2) = 0.
Proof.
  exact (proj1 (refresh_rejected_writes_nothing
                  (Scenario.env_at 1000000 (Some Scenario.rejected))
                  (Some "u1") Scenario.start)
           Scenario.stored Scenario.rejected
           eq_refl eq_refl eq_refl eq_refl).
Defined.

(** C4. When the provider grants the refresh and its answer has no
    [refresh_token] property, the object handed to the update has the
    stored [refresh_token] and the answer's [access_token] and
    [expires_at]; and once the datastore has served the update, the user's
    latest record holds the same [refresh_token] as before, and the
    answer's [access_token] and [expires_at] where the answer has them. *)
Theorem refresh_keeps_omitted_refresh_token
    (E : env) (user_id : option string) (w : world) (r : row)
    (resp : response) (refreshedTokens : gmap string value) :
  db_fails E (calls w) = false →
  latest user_id (table w) = Some r →
  token_endpoint E (refresh_token r) = Some resp →
  ok resp = true →
  json resp = Some refreshedTokens →
  refreshedTokens !! "refresh_token" = None →
  let out := refreshToken E user_id w in
  ∃ patch,
    new_events w out.2
    = [DbSelect user_id; ProviderRefresh (refresh_token r);
       DbUpdate user_id patch]
    ∧ get patch "refresh_token" = refresh_token r
    ∧ get patch "access_token" = get refreshedTokens "access_token"
    ∧ get patch "expires_at" = get refreshedTokens "expires_at"
    ∧ (db_fails E (S (calls w)) = false →
       ∃ r', latest user_id (table out.2) = Some r'
             ∧ refresh_token r' = refresh_token r
             ∧ access_token r'
               = written (get refreshedTokens "access_token") (access_token r)
             ∧ expires_at r'
               = written (get refreshedTokens "expires_at") (expires_at r)).
Proof.
  intros Hup Hr Hresp Hok Hjson Homitted out. subst out.
  assert (Hkept :
    get (refresh_patch refreshedTokens
           (select ["refresh_token"; "expires_at"] r)) "refresh_token"
    = refresh_token r).
  { rewrite refresh_patch_refresh_token, get_selected_refresh_token.
    unfold get at 1. rewrite Homitted. reflexivity. }
  eexists. split; [by eapply granted_refresh_events|].
  split; [exact Hkept|]. split; [reflexivity|]. split; [reflexivity|].
  intros Hup2. eexists. split; [by eapply granted_refresh_latest|].
  rewrite patched_refresh_token, patched_access_token, patched_expires_at.
  rewrite Hkept, written_same. repeat split.
Qed.

Lemma refresh_keeps_omitted_refresh_token_witness :
  let E := Scenario.env_at 1000000 (Some Scenario.granted) in
  let out := refreshToken E (Some "u1") Scenario.start in
  ∃ r', latest (Some "u1") (table out.2) = Some r'
        ∧ refresh_token r' = VStr "R1"
        ∧ access_token r' = VStr "A2"
        ∧ expires_at r' = VNum 2000.
Proof.
  destruct (refresh_keeps_omitted_refresh_token
              (Scenario.env_at 1000000 (Some Scenario.granted))
              (Some "u1") Scenario.start Scenario.stored Scenario.granted
              {[ "access_token" := VStr "A2"; "expires_at" := VNum 2000 ]}
              eq_refl eq_refl eq_refl eq_refl eq_refl eq_refl)
    as (patch & _ & _ & _ & _ & Hstored).
  exact (Hstored eq_refl).
Defined.

(** C10. When the provider grants the refresh and its answer has a
    [refresh_token] that is falsy (the empty string, [null], [false], 0),
    the object handed to the update has the stored [refresh_token], not the
    provider's; once the datastore has served the update, the user's latest
    record holds the same [refresh_token] as before. *)
Theorem refresh_keeps_refresh_token_over_falsy
    (E : env) (user_id : option string) (w : world) (r : row)
    (resp : response) (refreshedTokens : gmap string value) (v : value) :
  db_fails E (calls w) = false →
  latest user_id (table w) = Some r →
  token_endpoint E (refresh_token r) = Some resp →
  ok resp = true →
  json resp = Some refreshedTokens →
  refreshedTokens !! "refresh_token" = Some v →
  truthy v = false →
  let out := refreshToken E user_id w in
  ∃ patch,
    new_events w out.2
    = [DbSelect user_id; ProviderRefresh (refresh_token r);
       DbUpdate user_id patch]
    ∧ get patch "refresh_token" = refresh_token r
    ∧ (db_fails E (S (calls w)) = false →
       ∃ r', latest user_id (table out.2) = Some r'
             ∧ refresh_token r' = refresh_token r).
Proof.
  intros Hup Hr Hresp Hok Hjson Hpresent Hfalsy out. subst out.
  assert (Hkept :
    get (refresh_patch refreshedTokens
           (select ["refresh_token"; "expires_at"] r)) "refresh_token"
    = refresh_token r).
  { rewrite refresh_patch_refresh_token, get_selected_refresh_token.
    assert (Hv : get refreshedTokens "refresh_token" = v)
      by (unfold get; by rewrite Hpresent).
    rewrite Hv. unfold js_or. by rewrite Hfalsy. }
  eexists. split; [by eapply granted_refresh_events|].
  split; [exact Hkept|].
  intros Hup2. eexists. split; [by eapply granted_refresh_latest|].
  by rewrite patched_refresh_token, Hkept, written_same.
Qed.

Lemma refresh_keeps_refresh_token_over_falsy_witness :
  let E := Scenario.env_at 1000000 (Some Scenario.granted_empty_refresh_token) in
  let out := refreshToken E (Some "u1") Scenario.start in
  ∃ r', latest (Some "u1") (table out.2) = Some r'
        ∧ refresh_token r' = VStr "R1".
Proof.
  destruct (refresh_keeps_refresh_token_over_falsy
              (Scenario.env_at 1000000
                 (Some Scenario.granted_empty_refresh_token))
              (Some "u1") Scenario.start Scenario.stored
              Scenario.granted_empty_refresh_token
              {[ "access_token" := VStr "A2"; "refresh_token" := VStr "";
                 "expires_at" := VNum 2000 ]}
              (VStr "")
              eq_refl eq_refl eq_refl eq_refl eq_refl eq_refl eq_refl)
    as (patch & _ & _ & Hstored).
  exact (Hstored eq_refl).
Defined.

(** Against C2 as it is worded (only the latest record is overwritten):
    in the scenario the user has an older record besides the latest one,
    and the granted refresh rewrites the token fields of both. *)
Lemma refresh_overwrites_older_record :
  let E := Scenario.env_at 1000000 (Some Scenario.granted) in
  let out := refreshToken E (Some "u1") Scenario.start in
  latest (Some "u1") (table Scenario.start) = Some Scenario.stored
  ∧ table Scenario.start !! 0 = Some Scenario.older
  ∧ user_id Scenario.older = user_id Scenario.stored
  ∧ (created_at Scenario.older < created_at Scenario.stored)%Z
  ∧ new_events Scenario.start out.2
    = [DbSelect (Some "u1"); ProviderRefresh (VStr "R1");
       DbUpdate (Some "u1")
         {[ "access_token" := VStr "A2"; "refresh_token" := VStr "R1";
            "expires_at" := VNum 2000 ]}]
  ∧ table out.2 !! 0
    = Some (with_tokens Scenario.older (VStr "A2") (VStr "R1") (VNum 2000))
  ∧ table out.2 !! 0 ≠ Some Scenario.older.
Proof.
  cbv zeta. repeat split; try (vm_compute; reflexivity).
  vm_compute. discriminate.
Qed.

(** C2, amended to what the update does. When the provider grants the
    refresh and the datastore serves the update, every record of the user,
    the latest one and any older one alike, has its three token fields
    overwritten from the one object handed to the update (a field for which
    that object holds [undefined] keeps its value); [user_id] and
    [created_at] of every record and the records of all other users are as
    before, and the user's latest record is the former latest one with
    these fields overwritten. *)
Theorem refresh_overwrites_every_record_of_user
    (E : env) (user_id : option string) (w : world) (r : row)
    (resp : response) (refreshedTokens : gmap string value) :
  db_fails E (calls w) = false →
  db_fails E (S (calls w)) = false →
  latest user_id (table w) = Some r →
  token_endpoint E (refresh_token r) = Some resp →
  ok resp = true →
  json resp = Some refreshedTokens →
  let out := refreshToken E user_id w in
  let overwritten (old new : row) : Prop :=
    access_token new
    = written (get refreshedTokens "access_token") (access_token old)
    ∧ refresh_token new
      = written (js_or (get refreshedTokens "refresh_token") (refresh_token r))
                (refresh_token old)
    ∧ expires_at new
      = written (get refreshedTokens "expires_at") (expires_at old) in
  Forall2 (λ old new,
      Store.user_id new = Store.user_id old
      ∧ created_at new = created_at old
      ∧ if decide (Store.user_id old = eq_operand user_id)
        then overwritten old new
        else new = old)
    (table w) (table out.2)
  ∧ ∃ r', latest user_id (table out.2) = Some r'
          ∧ created_at r' = created_at r
          ∧ overwritten r r'.
Proof.
  intros Hup Hup2 Hr Hresp Hok Hjson out overwritten.
  subst out overwritten. cbv beta. split.
  - erewrite granted_refresh_table by eassumption.
    eapply Forall2_impl; [apply update_where_rowwise|].
    intros old new. cbv beta.
    rewrite refresh_patch_access_token, refresh_patch_refresh_token,
      refresh_patch_expires_at, get_selected_refresh_token.
    tauto.
  - eexists. split; [by eapply granted_refresh_latest|].
    rewrite patched_access_token, patched_refresh_token, patched_expires_at.
    rewrite refresh_patch_access_token, refresh_patch_refresh_token,
      refresh_patch_expires_at, get_selected_refresh_token.
    repeat split.
Qed.

Lemma refresh_overwrites_every_record_of_user_witness :
  let E := Scenario.env_at 1000000 (Some Scenario.granted) in
  let out := refreshToken E (Some "u1") Scenario.start in
  Forall2 (λ old new,
      Store.user_id new = Store.user_id old
      ∧ created_at new = created_at old
      ∧ if decide (Store.user_id old = "u1")
        then access_token new = VStr "A2"
             ∧ refresh_token new = VStr "R1"
             ∧ expires_at new = VNum 2000
        else new = old)
    [Scenario.older; Scenario.other; Scenario.stored] (table out.2).
Proof.
  eapply Forall2_impl.
  - exact (proj1 (refresh_overwrites_every_record_of_user
                    (Scenario.env_at 1000000 (Some Scenario.granted))
                    (Some "u1") Scenario.start Scenario.stored Scenario.granted
                    {[ "access_token" := VStr "A2"; "expires_at" := VNum 2000 ]}
                    eq_refl eq_refl eq_refl eq_refl eq_refl eq_refl)).
  - intros old new H. exact H.
Defined.

(** ** Every run of [refreshToken] and of [GET /get-token] *)

(** The runs of [refreshToken], by how far they get: the lookup alone, the
    lookup and the provider call, or these and the update. *)
Lemma refreshToken_run (E : env) (user_id : option string) (w : world) :
  let out := refreshToken E user_id w in
  (trace out.2 = trace w ++ [DbSelect user_id]
   ∧ table out.2 = table w ∧ calls out.2 = S (calls w)
   ∧ (db_fails E (calls w) = true ∨ latest user_id (table w) = None)
   ∧ out.1 = Throw (Error "Tokens not found for user"))
  ∨ ∃ r, db_fails E (calls w) = false ∧ latest user_id (table w) = Some r ∧
     ((trace out.2
       = trace w ++ [DbSelect user_id; ProviderRefresh (refresh_token r)]
       ∧ table out.2 = table w ∧ calls out.2 = S (calls w)
       ∧ (∀ resp o, token_endpoint E (refresh_token r) = Some resp →
                    ok resp = true → json resp = Some o → False)
       ∧ ∃ err, out.1 = Throw err)
      ∨ ∃ resp o,
         token_endpoint E (refresh_token r) = Some resp
         ∧ ok resp = true ∧ json resp = Some o
         ∧ trace out.2
           = trace w ++ [DbSelect user_id; ProviderRefresh (refresh_token r);
                         DbUpdate user_id
                           (refresh_patch o
                              (select ["refresh_token"; "expires_at"] r))]
         ∧ calls out.2 = S (S (calls w))
         ∧ ((db_fails E (S (calls w)) = true
             ∧ table out.2 = table w
             ∧ out.1 = Throw (Error "Failed to update tokens"))
            ∨ (db_fails E (S (calls w)) = false
               ∧ table out.2
                 = update_where
                     (refresh_patch o
                        (select ["refresh_token"; "expires_at"] r))
                     user_id (table w)
               ∧ out.1 = Normal (refresh_result o)))).
Proof.
  cbv zeta.
  destruct (db_fails E (calls w)) eqn:Hup.
  { left. rewrite refreshToken_not_found by tauto. cbn. tauto. }
  destruct (latest user_id (table w)) as [r|] eqn:Hr.
  2:{ left. rewrite refreshToken_not_found by tauto. cbn. tauto. }
  right. exists r. split; [reflexivity|]. split; [reflexivity|].
  destruct (token_endpoint E (refresh_token r)) as [resp|] eqn:Hresp.
  2:{ left. erewrite refreshToken_fetch_rejects by eassumption. cbn.
      rewrite <- app_assoc. repeat split; [discriminate|by eexists]. }
  destruct (ok resp) eqn:Hok.
  2:{ left. erewrite refreshToken_not_ok by eassumption. cbn.
      rewrite <- app_assoc. repeat split; [|by eexists].
      intros resp' o [= <-]. congruence. }
  destruct (json resp) as [o|] eqn:Hjson.
  2:{ left. erewrite refreshToken_body_unreadable by eassumption. cbn.
      rewrite <- app_assoc. repeat split; [|by eexists].
      intros resp' o [= <-]. congruence. }
  right. exists resp, o. do 3 (split; [first [assumption|reflexivity]|]).
  destruct (db_fails E (S (calls w))) eqn:Hup2.
  - erewrite refreshToken_update_fails by eassumption. cbn.
    rewrite <- !app_assoc. split; [reflexivity|]. split; [reflexivity|].
    left. repeat split.
  - erewrite refreshToken_succeeds by eassumption. cbn.
    rewrite <- !app_assoc. split; [reflexivity|]. split; [reflexivity|].
    right. repeat split.
Qed.

(** A run of the handler ends after its lookup, or where the run of
    [refreshToken] that follows the lookup ends. *)
Lemma get_token_run
    (S2N : string → option Z) (E : env) (query : gmap string string)
    (w : world) :
  let userId := query !! "user_id" in
  let w1 := served (DbSelect userId) (table w) w in
  let out := get_token S2N E query w in
  (out.2 = w1
   ∧ ((db_fails E (calls w) = true ∨ latest userId (table w) = None)
      ∧ out.1 = Normal (Json 404
                  {[ "error" := VStr "Tokens not found for user" ]})
      ∨ ∃ r, db_fails E (calls w) = false ∧ latest userId (table w) = Some r
             ∧ js_gt S2N (expires_at r) (Date_now E / 1000) = true
             ∧ out.1 = Normal (Json 200
                         {[ "access_token" := access_token r;
                            "expires_at" := expires_at r ]})))
  ∨ (∃ r, db_fails E (calls w) = false ∧ latest userId (table w) = Some r
          ∧ js_gt S2N (expires_at r) (Date_now E / 1000) = false)
    ∧ out.2 = (refreshToken E userId w1).2
    ∧ ((∃ err, (refreshToken E userId w1).1 = Throw err)
       ∧ out.1 = Normal (Json 500
                   {[ "error" := VStr "Failed to retrieve tokens" ]})
       ∨ ∃ o, (refreshToken E userId w1).1 = Normal (refresh_result o)
              ∧ out.1 = Normal (Json 200
                  {[ "access_token" := get o "access_token";
                     "message" :=
                       VStr "Token refreshed and retrieved successfully." ]})).
Proof.
  cbv zeta.
  destruct (db_fails E (calls w)) eqn:Hup.
  { left. rewrite get_token_not_found by tauto. cbn [fst snd]. tauto. }
  destruct (latest (query !! "user_id") (table w)) as [r|] eqn:Hr.
  2:{ left. rewrite get_token_not_found by tauto. cbn [fst snd]. tauto. }
  destruct (js_gt S2N (expires_at r) (Date_now E / 1000)) eqn:Hgt.
  { left. rewrite (get_token_fresh S2N E query w r) by assumption.
    cbn [fst snd]. split; [reflexivity|]. right. by exists r. }
  right. split; [by exists r|].
  rewrite (get_token_expired S2N E query w r) by assumption.
  destruct (refreshToken_cases E (query !! "user_id")
              (served (DbSelect (query !! "user_id")) (table w) w))
    as [(err & w' & ->)|(o & w' & ->)]; cbn [fst snd].
  - split; [reflexivity|]. left. split; [by exists err|reflexivity].
  - split; [reflexivity|]. right. exists o. split; [reflexivity|].
    rewrite refresh_result_no_error, refresh_result_access_token.
    reflexivity.
Qed.

(** ** Further properties of [GET /get-token] *)

(** X1. The handler always answers, and with JSON: a run never ends in an
    exception or a redirect. The status is 200, 404 or 500; a 200 body has
    no [error] property, a 404 or 500 body is an [error] message and
    nothing else. *)
Theorem get_token_always_answers
    (S2N : string → option Z) (E : env) (query : gmap string string)
    (w : world) :
  ∃ status body,
    (get_token S2N E query w).1 = Normal (Json status body)
    ∧ ((status = 200%Z ∧ body !! "error" = None)
       ∨ ((status = 404%Z ∨ status = 500%Z)
          ∧ ∃ msg, body = {[ "error" := VStr msg ]})).
Proof.
  destruct (get_token_run S2N E query w)
    as [(_ & [(_ & ->)|(r & _ & _ & _ & ->)])
       |(_ & _ & [(_ & ->)|(o & _ & ->)])];
    eexists _, _; (split; [reflexivity|]).
  - right. split; [tauto|]. by eexists.
  - left. split; reflexivity.
  - right. split; [tauto|]. by eexists.
  - left. split; reflexivity.
Qed.

(** X2. When the datastore fails the handler's lookup, the answer is 404
    "Tokens not found for user", also for a user whose record is stored
    and valid; nothing else is called and the table is as before. *)
Theorem get_token_lookup_outage_is_404
    (S2N : string → option Z) (E : env) (query : gmap string string)
    (w : world) :
  db_fails E (calls w) = true →
  let out := get_token S2N E query w in
  out.1 = Normal (Json 404 {[ "error" := VStr "Tokens not found for user" ]})
  ∧ table out.2 = table w
  ∧ new_events w out.2 = [DbSelect (query !! "user_id")].
Proof.
  intros Hdown out. subst out.
  rewrite get_token_not_found by tauto.
  cbn [fst snd]. rewrite new_events_served. repeat split.
Qed.

Lemma get_token_lookup_outage_is_404_witness :
  let E := Cases.env_outage_at 0 999000 (Some Scenario.granted) in
  let out :=
    get_token Scenario.nan_for_strings E Scenario.query Scenario.start in
  latest (Some "u1") (table Scenario.start) = Some Scenario.stored
  ∧ out.1 = Normal (Json 404 {[ "error" := VStr "Tokens not found for user" ]})
  ∧ table out.2 = table Scenario.start
  ∧ new_events Scenario.start out.2 = [DbSelect (Some "u1")].
Proof.
  split; [reflexivity|].
  exact (get_token_lookup_outage_is_404 Scenario.nan_for_strings
           (Cases.env_outage_at 0 999000 (Some Scenario.granted))
           Scenario.query Scenario.start eq_refl).
Defined.

Lemma rows_unchanged (rows : list row) (P : row → row → Prop) :
  (∀ x, P x x) → Forall2 P rows rows.
Proof. intros HP. induction rows; constructor; auto. Qed.

(** X3. Whatever the datastore and the provider do, a request leaves the
    rows of every other user as they were, and adds, removes or reorders
    no row: the table keeps its rows' [user_id] and [created_at], position
    by position. *)
Theorem get_token_keeps_other_users_rows
    (S2N : string → option Z) (E : env) (query : gmap string string)
    (w : world) :
  Forall2 (λ old new,
      user_id new = user_id old
      ∧ created_at new = created_at old
      ∧ (user_id old ≠ eq_operand (query !! "user_id") → new = old))
    (table w) (table (get_token S2N E query w).2).
Proof.
  assert (Hsame : Forall2 (λ old new,
      user_id new = user_id old
      ∧ created_at new = created_at old
      ∧ (user_id old ≠ eq_operand (query !! "user_id") → new = old))
    (table w) (table w)) by (apply rows_unchanged; tauto).
  destruct (get_token_run S2N E query w) as [[-> _]|(_ & -> & _)];
    [exact Hsame|].
  destruct (refreshToken_run E (query !! "user_id")
              (served (DbSelect (query !! "user_id")) (table w) w))
    as [(_ & -> & _)
       |(r & _ & _ & [(_ & -> & _)
                     |(resp & o & _ & _ & _ & _ & _
                       & [(_ & -> & _)|(_ & -> & _)])])];
    try exact Hsame.
  cbn [served table].
  eapply Forall2_impl; [apply update_where_rowwise|].
  intros old new (Hu & Hc & Hrow). split; [exact Hu|]. split; [exact Hc|].
  intros Hother.
  destruct (decide (user_id old = eq_operand (query !! "user_id")));
    [contradiction|exact Hrow].
Qed.

(** X4. No request makes more than three datastore calls, more than one
    provider call or more than one write, and the only write it makes is
    an update filtered by the requested user: there are no retries. *)
Theorem get_token_call_bounds
    (S2N : string → option Z) (E : env) (query : gmap string string)
    (w : world) :
  let out := get_token S2N E query w in
  (calls out.2 ≤ calls w + 3)%nat
  ∧ (count is_provider_call (new_events w out.2) ≤ 1)%nat
  ∧ (count is_write (new_events w out.2) ≤ 1)%nat
  ∧ Forall (λ ev, is_write ev = true →
                  ∃ patch, ev = DbUpdate (query !! "user_id") patch)
      (new_events w out.2).
Proof.
  cbv zeta.
  destruct (get_token_run S2N E query w) as [[-> _]|(_ & -> & _)].
  { cbn [served calls]. rewrite new_events_served. cbn.
    repeat split; [lia..|]. constructor; [discriminate|constructor]. }
  destruct (refreshToken_run E (query !! "user_id")
              (served (DbSelect (query !! "user_id")) (table w) w))
    as [(Ht & _ & Hc & _)
       |(r & _ & _ & [(Ht & _ & Hc & _)
                     |(resp & o & _ & _ & _ & Ht & Hc & _)])];
    cbn [served calls trace] in Ht, Hc; rewrite <- app_assoc in Ht;
    rewrite (new_events_app _ _ _ Ht), Hc; cbn;
    (repeat split; [lia..|]);
    repeat (constructor; [first [discriminate|by eexists]|]); constructor.
Qed.

(** X5. When the provider grants the refresh and its answer has a truthy
    [refresh_token], that value is handed to the update in place of the
    stored one, and once the datastore has served the update the user's
    latest record holds it: the refresh token is rotated. *)
Theorem refresh_rotates_refresh_token
    (E : env) (user_id : option string) (w : world) (r : row)
    (resp : response) (refreshedTokens : gmap string value) (v : value) :
  db_fails E (calls w) = false →
  latest user_id (table w) = Some r →
  token_endpoint E (refresh_token r) = Some resp →
  ok resp = true →
  json resp = Some refreshedTokens →
  refreshedTokens !! "refresh_token" = Some v →
  truthy v = true →
  let out := refreshToken E user_id w in
  ∃ patch,
    new_events w out.2
    = [DbSelect user_id; ProviderRefresh (refresh_token r);
       DbUpdate user_id patch]
    ∧ get patch "refresh_token" = v
    ∧ (db_fails E (S (calls w)) = false →
       ∃ r', latest user_id (table out.2) = Some r'
             ∧ refresh_token r' = v).
Proof.
  intros Hup Hr Hresp Hok Hjson Hpresent Htruthy out. subst out.
  assert (Hnew :
    get (refresh_patch refreshedTokens
           (select ["refresh_token"; "expires_at"] r)) "refresh_token" = v).
  { rewrite refresh_patch_refresh_token.
    assert (Hv : get refreshedTokens "refresh_token" = v)
      by (unfold get; by rewrite Hpresent).
    rewrite Hv. unfold js_or. by rewrite Htruthy. }
  eexists. split; [by eapply granted_refresh_events|].
  split; [exact Hnew|].
  intros Hup2. eexists. split; [by eapply granted_refresh_latest|].
  rewrite patched_refresh_token, Hnew.
  destruct v; try reflexivity. discriminate Htruthy.
Qed.

Lemma refresh_rotates_refresh_token_witness :
  let E := Scenario.env_at 1000000 (Some Cases.granted_rotating) in
  let out := refreshToken E (Some "u1") Scenario.start in
  ∃ r', latest (Some "u1") (table out.2) = Some r'
        ∧ refresh_token r' = VStr "R2".
Proof.
  destruct (refresh_rotates_refresh_token
              (Scenario.env_at 1000000 (Some Cases.granted_rotating))
              (Some "u1") Scenario.start Scenario.stored
              Cases.granted_rotating
              {[ "access_token" := VStr "A2"; "refresh_token" := VStr "R2";
                 "expires_at" := VNum 2000 ]}
              (VStr "R2")
              eq_refl eq_refl eq_refl eq_refl eq_refl eq_refl eq_refl)
    as (patch & _ & _ & Hstored).
  exact (Hstored eq_refl).
Defined.

(** X9. [refreshToken] calls the provider only after its own lookup was
    served and found a record, and the refresh token it sends is the one
    of the user's latest record. *)
Theorem refreshToken_sends_latest_refresh_token
    (E : env) (user_id : option string) (w : world) (rt : value) :
  ProviderRefresh rt ∈ new_events w (refreshToken E user_id w).2 →
  db_fails E (calls w) = false
  ∧ ∃ r, latest user_id (table w) = Some r ∧ rt = refresh_token r.
Proof.
  destruct (refreshToken_run E user_id w)
    as [(Ht & _)
       |(r & Hup & Hr & [(Ht & _)|(resp & o & _ & _ & _ & Ht & _)])];
    rewrite (new_events_app _ _ _ Ht); intros Hin.
  - apply list_elem_of_singleton in Hin. discriminate.
  - split; [exact Hup|]. exists r. split; [exact Hr|].
    repeat (apply elem_of_cons in Hin as [Hin|Hin]; [congruence|]).
    by apply elem_of_nil in Hin.
  - split; [exact Hup|]. exists r. split; [exact Hr|].
    repeat (apply elem_of_cons in Hin as [Hin|Hin]; [congruence|]).
    by apply elem_of_nil in Hin.
Qed.

Lemma refreshToken_sends_latest_refresh_token_witness :
  latest (Some "u1") (table Scenario.start) = Some Scenario.stored
  ∧ ∃ r, latest (Some "u1") (table Scenario.start) = Some r
         ∧ VStr "R1" = refresh_token r.
Proof.
  split; [reflexivity|].
  refine (proj2 (refreshToken_sends_latest_refresh_token
                   (Scenario.env_at 1000000 (Some Scenario.rejected))
                   (Some "u1") Scenario.start (VStr "R1") _)).
  vm_compute. apply elem_of_cons. right. apply elem_of_cons. by left.
Defined.

(** A record that is not answered as valid makes the handler enter
    [refreshToken], whose lookup is the second call of the run. *)
Lemma get_token_enters_refresh
    (S2N : string → option Z) (E : env) (query : gmap string string)
    (w : world) (r : row) :
  db_fails E (calls w) = false →
  latest (query !! "user_id") (table w) = Some r →
  js_gt S2N (expires_at r) (Date_now E / 1000) = false →
  ∃ t, new_events w (get_token S2N E query w).2
       = DbSelect (query !! "user_id") :: DbSelect (query !! "user_id") :: t.
Proof.
  intros Hup Hr Hgt.
  rewrite (get_token_expired S2N E query w r) by assumption.
  destruct (refreshToken_begins E (query !! "user_id")
              (served (DbSelect (query !! "user_id")) (table w) w))
    as [t Ht].
  exists t. apply new_events_app.
  destruct (refreshToken E (query !! "user_id") _) as [[o|err] w'];
    cbn in Ht |- *; rewrite Ht; cbn; by rewrite <- app_assoc.
Qed.

(** X8. For a record that is not valid any more, a provider that does not
    grant the refresh (no answer, a status that is not a success, a body
    that cannot be read) makes the handler answer 500 "Failed to retrieve
    tokens" after one provider call: nothing is written and the table is as
    before. *)
Theorem get_token_refresh_not_granted
    (S2N : string → option Z) (E : env) (query : gmap string string)
    (w : world) (r : row) :
  db_fails E (calls w) = false →
  db_fails E (S (calls w)) = false →
  latest (query !! "user_id") (table w) = Some r →
  js_gt S2N (expires_at r) (Date_now E / 1000) = false →
  (∀ resp o, token_endpoint E (refresh_token r) = Some resp →
             ok resp = true → json resp = Some o → False) →
  let userId := query !! "user_id" in
  let out := get_token S2N E query w in
  out.1 = Normal (Json 500 {[ "error" := VStr "Failed to retrieve tokens" ]})
  ∧ table out.2 = table w
  ∧ new_events w out.2
    = [DbSelect userId; DbSelect userId; ProviderRefresh (refresh_token r)]
  ∧ count is_write (new_events w out.2) = 0.
Proof.
  intros Hup0 Hup1 Hr Hgt Hrefused userId out. subst out.
  rewrite (get_token_expired S2N E query w r) by assumption. fold userId.
  destruct (refreshToken_run E userId (served (DbSelect userId) (table w) w))
    as [(_ & _ & _ & [Hdown|Hnone] & _)
       |(r' & _ & Hr' & [(Ht & Htable & _ & _ & err & Herr)
                        |(resp & o & Hresp & Hok & Hjson & _)])];
    cbn [served calls table trace] in *; unfold userId in *.
  - rewrite Hup1 in Hdown. discriminate Hdown.
  - rewrite Hr in Hnone. discriminate Hnone.
  - rewrite Hr in Hr'. injection Hr' as <-.
    destruct (refreshToken E (query !! "user_id") _) as [c w'].
    cbn [fst snd] in *.
    subst c. cbn [fst snd]. rewrite <- app_assoc in Ht.
    rewrite (new_events_app _ _ _ Ht), Htable. repeat split.
  - rewrite Hr in Hr'. injection Hr' as <-.
    destruct (Hrefused resp o Hresp Hok Hjson).
Qed.

Lemma get_token_refresh_not_granted_witness :
  let E := Scenario.env_at 1000000 None in
  let out :=
    get_token Scenario.nan_for_strings E Scenario.query Scenario.start in
  out.1 = Normal (Json 500 {[ "error" := VStr "Failed to retrieve tokens" ]})
  ∧ table out.2 = table Scenario.start
  ∧ new_events Scenario.start out.2
    = [DbSelect (Some "u1"); DbSelect (Some "u1"); ProviderRefresh (VStr "R1")]
  ∧ count is_write (new_events Scenario.start out.2) = 0.
Proof.
  apply (get_token_refresh_not_granted Scenario.nan_for_strings
           (Scenario.env_at 1000000 None)
           Scenario.query Scenario.start Scenario.stored);
    try reflexivity.
  intros resp o Hresp. discriminate Hresp.
Defined.

(** X10. When the provider has granted the refresh and the datastore then
    refuses the update, the handler answers 500 and the table is as before:
    the refresh token was sent to the provider and used there, while the
    stored record still holds the old tokens. *)
Theorem get_token_update_refused_keeps_table
    (S2N : string → option Z) (E : env) (query : gmap string string)
    (w : world) (r : row) (resp : response)
    (refreshedTokens : gmap string value) :
  db_fails E (calls w) = false →
  db_fails E (S (calls w)) = false →
  db_fails E (S (S (calls w))) = true →
  latest (query !! "user_id") (table w) = Some r →
  js_gt S2N (expires_at r) (Date_now E / 1000) = false →
  token_endpoint E (refresh_token r) = Some resp →
  ok resp = true →
  json resp = Some refreshedTokens →
  let userId := query !! "user_id" in
  let out := get_token S2N E query w in
  out.1 = Normal (Json 500 {[ "error" := VStr "Failed to retrieve tokens" ]})
  ∧ table out.2 = table w
  ∧ latest userId (table out.2) = Some r
  ∧ count is_refresh_call (new_events w out.2) = 1.
Proof.
  intros Hup0 Hup1 Hup2 Hr Hgt Hresp Hok Hjson userId out. subst out.
  rewrite (get_token_expired S2N E query w r) by assumption. fold userId.
  rewrite (refreshToken_update_fails E userId
             (served (DbSelect userId) (table w) w) r Hup1 Hr resp Hresp Hok
             refreshedTokens Hjson Hup2).
  cbn [fst snd served emit table].
  split; [reflexivity|]. split; [reflexivity|]. split; [exact Hr|].
  erewrite new_events_app by (cbn; by rewrite <- !app_assoc).
  reflexivity.
Qed.

Lemma get_token_update_refused_keeps_table_witness :
  let E := Cases.env_outage_at 2 1000000 (Some Scenario.granted) in
  let out :=
    get_token Scenario.nan_for_strings E Scenario.query Scenario.start in
  out.1 = Normal (Json 500 {[ "error" := VStr "Failed to retrieve tokens" ]})
  ∧ table out.2 = table Scenario.start
  ∧ latest (Some "u1") (table out.2) = Some Scenario.stored
  ∧ count is_refresh_call (new_events Scenario.start out.2) = 1.
Proof.
  apply (get_token_update_refused_keeps_table Scenario.nan_for_strings
           (Cases.env_outage_at 2 1000000 (Some Scenario.granted))
           Scenario.query Scenario.start Scenario.stored Scenario.granted
           {[ "access_token" := VStr "A2"; "expires_at" := VNum 2000 ]});
    reflexivity.
Defined.

Section AfterGrantedRefresh.

Variable S2N : string → option Z.
Variable E : env.
Variable query : gmap string string.
Variable w : world.
Variable r : row.
Variable resp : response.
Variable refreshedTokens : gmap string value.
Hypothesis Hup0 : db_fails E (calls w) = false.
Hypothesis Hup1 : db_fails E (S (calls w)) = false.
Hypothesis Hup2 : db_fails E (S (S (calls w))) = false.
Hypothesis Hlatest : latest (query !! "user_id") (table w) = Some r.
Hypothesis Hexpired : js_gt S2N (expires_at r) (Date_now E / 1000) = false.
Hypothesis Hresp : token_endpoint E (refresh_token r) = Some resp.
Hypothesis Hok : ok resp = true.
Hypothesis Hjson : json resp = Some refreshedTokens.

Let userId : option string := query !! "user_id".
Let patch : gmap string value :=
  refresh_patch refreshedTokens (select ["refresh_token"; "expires_at"] r).

(** The run of the handler that refreshes, spelled out. *)
Lemma get_token_refreshed :
  get_token S2N E query w
  = (Normal (Json 200
       {[ "access_token" := get refreshedTokens "access_token";
          "message" := VStr "Token refreshed and retrieved successfully." ]}),
     served (DbUpdate userId patch) (update_where patch userId (table w))
       (emit (ProviderRefresh (refresh_token r))
          (served (DbSelect userId) (table w)
             (served (DbSelect userId) (table w) w)))).
Proof.
  rewrite (get_token_expired S2N E query w r) by assumption. fold userId.
  rewrite (refreshToken_succeeds E userId
             (served (DbSelect userId) (table w) w) r Hup1 Hlatest resp Hresp
             Hok refreshedTokens Hjson Hup2).
  rewrite refresh_result_no_error, refresh_result_access_token.
  reflexivity.
Qed.

Lemma get_token_refreshed_latest :
  latest userId (table (get_token S2N E query w).2) = Some (patched patch r)
  ∧ calls (get_token S2N E query w).2 = S (S (S (calls w))).
Proof.
  rewrite get_token_refreshed. cbn [snd served table calls emit].
  unfold userId. by rewrite latest_update_where, Hlatest.
Qed.

End AfterGrantedRefresh.

(** X6. After a request has refreshed an expired record and the update was
    served, the next request for the user is answered from the table alone:
    when the provider's answer carried an access token and an [expires_at]
    later than the clock, the second answer is that access token and that
    [expires_at], with a lookup as its only call. *)
Theorem get_token_after_refresh_reads_table
    (S2N : string → option Z) (E : env) (query : gmap string string)
    (w : world) (r : row) (resp : response)
    (refreshedTokens : gmap string value) (a : string) (e' : Z) :
  db_fails E (calls w) = false →
  db_fails E (S (calls w)) = false →
  db_fails E (S (S (calls w))) = false →
  db_fails E (S (S (S (calls w)))) = false →
  latest (query !! "user_id") (table w) = Some r →
  js_gt S2N (expires_at r) (Date_now E / 1000) = false →
  token_endpoint E (refresh_token r) = Some resp →
  ok resp = true →
  json resp = Some refreshedTokens →
  refreshedTokens !! "access_token" = Some (VStr a) →
  refreshedTokens !! "expires_at" = Some (VNum e') →
  (Date_now E / 1000 < e')%Z →
  let first := get_token S2N E query w in
  let second := get_token S2N E query first.2 in
  first.1 = Normal (Json 200
              {[ "access_token" := VStr a;
                 "message" :=
                   VStr "Token refreshed and retrieved successfully." ]})
  ∧ second.1 = Normal (Json 200 {[ "access_token" := VStr a;
                                   "expires_at" := VNum e' ]})
  ∧ new_events first.2 second.2 = [DbSelect (query !! "user_id")]
  ∧ table second.2 = table first.2.
Proof.
  intros Hup0 Hup1 Hup2 Hup3 Hr Hgt Hresp Hok Hjson Ha He Hlt first second.
  assert (Hga : get refreshedTokens "access_token" = VStr a)
    by (unfold get; by rewrite Ha).
  assert (Hge : get refreshedTokens "expires_at" = VNum e')
    by (unfold get; by rewrite He).
  destruct (get_token_refreshed_latest S2N E query w r resp refreshedTokens
              Hup0 Hup1 Hup2 Hr Hgt Hresp Hok Hjson) as [Hr' Hcalls].
  fold first in Hr', Hcalls.
  assert (Hfirst : first.1 = Normal (Json 200
              {[ "access_token" := VStr a;
                 "message" :=
                   VStr "Token refreshed and retrieved successfully." ]})).
  { subst first.
    rewrite (get_token_refreshed S2N E query w r resp refreshedTokens)
      by assumption.
    cbn [fst]. by rewrite Hga. }
  split; [exact Hfirst|]. subst second.
  rewrite (get_token_fresh S2N E query first.2 _
             ltac:(by rewrite Hcalls) Hr').
  - cbn [fst snd]. rewrite new_events_served.
    rewrite patched_access_token, patched_expires_at.
    rewrite refresh_patch_access_token, refresh_patch_expires_at, Hga, Hge.
    repeat split.
  - rewrite patched_expires_at, refresh_patch_expires_at, Hge. cbn [written].
    rewrite gt_number. by apply bool_decide_eq_true_2.
Qed.

Lemma get_token_after_refresh_reads_table_witness :
  let E := Scenario.env_at 1000000 (Some Scenario.granted) in
  let first :=
    get_token Scenario.nan_for_strings E Scenario.query Scenario.start in
  let second := get_token Scenario.nan_for_strings E Scenario.query first.2 in
  first.1 = Normal (Json 200
              {[ "access_token" := VStr "A2";
                 "message" :=
                   VStr "Token refreshed and retrieved successfully." ]})
  ∧ second.1 = Normal (Json 200 {[ "access_token" := VStr "A2";
                                   "expires_at" := VNum 2000 ]})
  ∧ new_events first.2 second.2 = [DbSelect (Some "u1")]
  ∧ table second.2 = table first.2.
Proof.
  apply (get_token_after_refresh_reads_table Scenario.nan_for_strings
           (Scenario.env_at 1000000 (Some Scenario.granted))
           Scenario.query Scenario.start Scenario.stored Scenario.granted
           {[ "access_token" := VStr "A2"; "expires_at" := VNum 2000 ]}
           "A2" 2000);
    reflexivity.
Defined.

(** X7. When the provider's answer to a granted refresh has no
    [expires_at] property (it names the lifetime otherwise, as
    [expires_in]), the update leaves the stored [expires_at] as it was, so
    the record is still expired: the next request at the same clock enters
    [refreshToken] again. *)
Theorem get_token_without_expires_at_refreshes_again
    (S2N : string → option Z) (E : env) (query : gmap string string)
    (w : world) (r : row) (resp : response)
    (refreshedTokens : gmap string value) :
  db_fails E (calls w) = false →
  db_fails E (S (calls w)) = false →
  db_fails E (S (S (calls w))) = false →
  db_fails E (S (S (S (calls w)))) = false →
  latest (query !! "user_id") (table w) = Some r →
  js_gt S2N (expires_at r) (Date_now E / 1000) = false →
  token_endpoint E (refresh_token r) = Some resp →
  ok resp = true →
  json resp = Some refreshedTokens →
  refreshedTokens !! "expires_at" = None →
  let userId := query !! "user_id" in
  let first := get_token S2N E query w in
  let second := get_token S2N E query first.2 in
  (∃ r', latest userId (table first.2) = Some r'
         ∧ expires_at r' = expires_at r)
  ∧ ∃ t, new_events first.2 second.2
         = DbSelect userId :: DbSelect userId :: t.
Proof.
  intros Hup0 Hup1 Hup2 Hup3 Hr Hgt Hresp Hok Hjson He userId first second.
  assert (Hge : get refreshedTokens "expires_at" = VUndefined)
    by (unfold get; by rewrite He).
  destruct (get_token_refreshed_latest S2N E query w r resp refreshedTokens
              Hup0 Hup1 Hup2 Hr Hgt Hresp Hok Hjson) as [Hr' Hcalls].
  fold first in Hr', Hcalls.
  assert (Hkept :
    expires_at (patched (refresh_patch refreshedTokens
                           (select ["refresh_token"; "expires_at"] r)) r)
    = expires_at r)
    by (by rewrite patched_expires_at, refresh_patch_expires_at, Hge).
  split; [eexists; split; [exact Hr'|exact Hkept]|].
  subst second.
  apply (get_token_enters_refresh S2N E query first.2 _
           ltac:(by rewrite Hcalls) Hr').
  by rewrite Hkept.
Qed.

Lemma get_token_without_expires_at_refreshes_again_witness :
  let E := Scenario.env_at 1000000 (Some Cases.granted_expires_in) in
  let first :=
    get_token Scenario.nan_for_strings E Scenario.query Scenario.start in
  let second := get_token Scenario.nan_for_strings E Scenario.query first.2 in
  (∃ r', latest (Some "u1") (table first.2) = Some r'
         ∧ expires_at r' = VNum 1000)
  ∧ ∃ t, new_events first.2 second.2
         = DbSelect (Some "u1") :: DbSelect (Some "u1") :: t.
Proof.
  apply (get_token_without_expires_at_refreshes_again
           Scenario.nan_for_strings
           (Scenario.env_at 1000000 (Some Cases.granted_expires_in))
           Scenario.query Scenario.start Scenario.stored
           Cases.granted_expires_in
           {[ "access_token" := VStr "A2"; "expires_in" := VNum 7200 ]});
    reflexivity.
Defined.

(** X14. A record whose [expires_at] is [null] is never answered as valid
    while the clock is not before the epoch: the handler enters
    [refreshToken]. *)
Theorem get_token_null_expiry_refreshes
    (S2N : string → option Z) (E : env) (query : gmap string string)
    (w : world) (r : row) :
  db_fails E (calls w) = false →
  latest (query !! "user_id") (table w) = Some r →
  expires_at r = VNull →
  (0 ≤ Date_now E)%Z →
  let out := get_token S2N E query w in
  (∀ a x, out.1 ≠ Normal (Json 200 {[ "access_token" := a;
                                      "expires_at" := x ]}))
  ∧ ∃ t, new_events w out.2
         = DbSelect (query !! "user_id") :: DbSelect (query !! "user_id") :: t.
Proof.
  intros Hup Hr Hnull Hclock out. subst out.
  assert (Hgt : js_gt S2N (expires_at r) (Date_now E / 1000) = false).
  { rewrite Hnull. unfold js_gt, ToNumber. apply Z.ltb_ge.
    apply Z.div_pos; lia. }
  split; [|by eapply get_token_enters_refresh].
  intros a x.
  destruct (get_token_run S2N E query w)
    as [(_ & [(_ & ->)|(r' & _ & Hr' & Hgt' & _)])
       |(_ & _ & [(_ & ->)|(o & _ & ->)])].
  - discriminate.
  - rewrite Hr in Hr'. injection Hr' as <-. rewrite Hgt in Hgt'.
    discriminate Hgt'.
  - discriminate.
  - apply refreshed_answer_is_not_stored_answer.
Qed.

Lemma get_token_null_expiry_refreshes_witness :
  let E := Scenario.env_at 5000 (Some Scenario.granted) in
  let out :=
    get_token Scenario.nan_for_strings E {[ "user_id" := "u4" ]}
      Cases.start_without_expiry in
  ∃ t, new_events Cases.start_without_expiry out.2
       = DbSelect (Some "u4") :: DbSelect (Some "u4") :: t.
Proof.
  refine (proj2 (get_token_null_expiry_refreshes Scenario.nan_for_strings
                   (Scenario.env_at 5000 (Some Scenario.granted))
                   {[ "user_id" := "u4" ]} Cases.start_without_expiry
                   Cases.without_expiry eq_refl eq_refl eq_refl _)).
  vm_compute. discriminate.
Defined.

(** ** Runs of [GET /callback] *)

(** The runs of the handler, by how far they get: no exchange, a failed
    exchange, a refused upsert, a served upsert. *)
Lemma callback_run (E : env) (query : gmap string string) (w : world) :
  let out := callback E query w in
  (out = (Normal (Redirect "/"), w)
   ∧ (query !! "code" = None ∨ query !! "code" = Some ""))
  ∨ ∃ code, query !! "code" = Some code ∧ code ≠ "" ∧
     let w1 := emit (ProviderExchange code) w in
     ((exchangeCodeForSession E code = None
       ∧ out = (Normal (Json 500
                  {[ "error" := VStr "Failed to exchange code" ]}), w1))
      ∨ ∃ s, exchangeCodeForSession E code = Some s ∧
         let payload : gmap string value :=
           {[ "user_id" := VStr (session_user_id s);
              "access_token" := session_access_token s;
              "refresh_token" := session_refresh_token s;
              "expires_at" := session_expires_at s ]} in
         ((db_fails E (calls w) = true
           ∧ out = (Normal (Json 500
                      {[ "error" := VStr "Failed to save tokens" ]}),
                    served (DbUpsert payload) (table w) w1))
          ∨ (db_fails E (calls w) = false
             ∧ out = (Normal (Redirect "/"),
                      served (DbUpsert payload)
                        (upsert_rows E payload (table w)) w1)))).
Proof.
  cbv zeta. unfold callback.
  destruct (query !! "code") as [code|] eqn:Hcode; [|left; tauto].
  cbn [truthy]. destruct (String.eqb_spec code "") as [->|Hne].
  { left. cbn [negb]. tauto. }
  right. exists code. split; [reflexivity|]. split; [exact Hne|].
  cbn [negb]. unfold mbind, M_bind, exchange.
  destruct (exchangeCodeForSession E code) as [s|]; [|left; tauto].
  right. exists s. split; [reflexivity|].
  unfold upsert, db_call. cbn [emit calls table].
  destruct (db_fails E (calls w)); [left|right]; split; reflexivity.
Qed.

(** X11. When the identity provider answers the code exchange with an
    error, the handler answers 500 "Failed to exchange code" and makes no
    datastore call: the table is as before. *)
Theorem callback_exchange_error
    (E : env) (query : gmap string string) (w : world) (code : string) :
  query !! "code" = Some code →
  code ≠ "" →
  exchangeCodeForSession E code = None →
  let out := callback E query w in
  out.1 = Normal (Json 500 {[ "error" := VStr "Failed to exchange code" ]})
  ∧ table out.2 = table w
  ∧ calls out.2 = calls w
  ∧ new_events w out.2 = [ProviderExchange code].
Proof.
  intros Hcode Hne Herr out. subst out.
  destruct (callback_run E query w)
    as [[_ [Hq|Hq]]|(c & Hq & _ & [[_ ->]|(s & Hs & _)])];
    rewrite Hcode in Hq; try discriminate Hq; injection Hq as Hq;
    try contradiction; subst c.
  - cbn [fst snd emit table calls].
    erewrite new_events_app by reflexivity. repeat split.
  - rewrite Herr in Hs. discriminate Hs.
Qed.

Lemma callback_exchange_error_witness :
  let out :=
    callback (Cases.env_exchange (λ _, false)) {[ "code" := "stale" ]}
      Scenario.start in
  out.1 = Normal (Json 500 {[ "error" := VStr "Failed to exchange code" ]})
  ∧ table out.2 = table Scenario.start
  ∧ calls out.2 = calls Scenario.start
  ∧ new_events Scenario.start out.2 = [ProviderExchange "stale"].
Proof.
  apply (callback_exchange_error (Cases.env_exchange (λ _, false))
           {[ "code" := "stale" ]} Scenario.start "stale");
    [reflexivity|discriminate|reflexivity].
Defined.

(** X12. When the code exchange gave a session and the datastore refuses
    the upsert, the handler answers 500 "Failed to save tokens": the
    session's tokens are not in the table, which is as before, and no
    redirect is sent. *)
Theorem callback_upsert_refused
    (E : env) (query : gmap string string) (w : world) (code : string)
    (s : session) :
  query !! "code" = Some code →
  code ≠ "" →
  exchangeCodeForSession E code = Some s →
  db_fails E (calls w) = true →
  let out := callback E query w in
  out.1 = Normal (Json 500 {[ "error" := VStr "Failed to save tokens" ]})
  ∧ table out.2 = table w
  ∧ count is_write (new_events w out.2) = 1.
Proof.
  intros Hcode Hne Hs Hdown out. subst out.
  destruct (callback_run E query w)
    as [[_ [Hq|Hq]]
       |(c & Hq & _ & [[Hs' _]|(s' & Hs' & [[_ ->]|[Hup _]])])];
    rewrite Hcode in Hq; try discriminate Hq; injection Hq as Hq;
    try contradiction; subst c.
  - rewrite Hs in Hs'. discriminate Hs'.
  - cbn [fst snd served table].
    erewrite new_events_app by (cbn; by rewrite <- app_assoc).
    repeat split.
  - rewrite Hdown in Hup. discriminate Hup.
Qed.

Lemma callback_upsert_refused_witness :
  let out :=
    callback (Cases.env_exchange (λ _, true)) {[ "code" := "c0" ]}
      Scenario.start in
  out.1 = Normal (Json 500 {[ "error" := VStr "Failed to save tokens" ]})
  ∧ table out.2 = table Scenario.start
  ∧ count is_write (new_events Scenario.start out.2) = 1.
Proof.
  apply (callback_upsert_refused (Cases.env_exchange (λ _, true))
           {[ "code" := "c0" ]} Scenario.start "c0" Cases.signed_in);
    [reflexivity|discriminate|reflexivity|reflexivity].
Defined.

(** X13. When the code exchange gave a session and the datastore serves
    the upsert, the handler redirects to "/" after exactly one exchange and
    one upsert, and the object upserted carries the session's user id,
    access token, refresh token and expiry, unchanged. *)
Theorem callback_stores_session
    (E : env) (query : gmap string string) (w : world) (code : string)
    (s : session) :
  query !! "code" = Some code →
  code ≠ "" →
  exchangeCodeForSession E code = Some s →
  db_fails E (calls w) = false →
  let out := callback E query w in
  ∃ payload,
    out.1 = Normal (Redirect "/")
    ∧ new_events w out.2 = [ProviderExchange code; DbUpsert payload]
    ∧ table out.2 = upsert_rows E payload (table w)
    ∧ get payload "user_id" = VStr (session_user_id s)
    ∧ get payload "access_token" = session_access_token s
    ∧ get payload "refresh_token" = session_refresh_token s
    ∧ get payload "expires_at" = session_expires_at s
    ∧ dom payload
      = {[ "user_id"; "access_token"; "refresh_token"; "expires_at" ]}.
Proof.
  intros Hcode Hne Hs Hup out. subst out.
  destruct (callback_run E query w)
    as [[_ [Hq|Hq]]
       |(c & Hq & _ & [[Hs' _]|(s' & Hs' & [[Hdown _]|[_ ->]])])];
    rewrite Hcode in Hq; try discriminate Hq; injection Hq as Hq;
    try contradiction; subst c.
  - rewrite Hs in Hs'. discriminate Hs'.
  - rewrite Hup in Hdown. discriminate Hdown.
  - rewrite Hs in Hs'. injection Hs' as <-.
    eexists. cbn [fst snd served table].
    split; [reflexivity|].
    split; [apply new_events_app; cbn; by rewrite <- app_assoc|].
    split; [reflexivity|].
    do 4 (split; [reflexivity|]).
    rewrite !dom_insert_L, dom_singleton_L. set_solver.
Qed.

Lemma callback_stores_session_witness :
  let out :=
    callback (Cases.env_exchange (λ _, false)) {[ "code" := "c0" ]}
      Scenario.start in
  out.1 = Normal (Redirect "/")
  ∧ table out.2
    = [Scenario.older; Scenario.other; Scenario.stored;
       {| user_id := "u5"; access_token := VStr "E1";
          refresh_token := VStr "V1"; expires_at := VNum 3000;
          created_at := 50 |}].
Proof.
  pose proof (callback_stores_session (Cases.env_exchange (λ _, false))
                {[ "code" := "c0" ]} Scenario.start "c0" Cases.signed_in)
    as H.
  destruct H as (payload & Hanswer & _);
    [reflexivity|discriminate|reflexivity|reflexivity|].
  split; [exact Hanswer|]. vm_compute. reflexivity.
Defined.

(** X15. A [code] parameter that is present but empty is treated like an
    absent one: the handler redirects to "/" without an exchange or a
    datastore call. *)
Theorem callback_empty_code
    (E : env) (query : gmap string string) (w : world) :
  query !! "code" = Some "" →
  let out := callback E query w in
  out.1 = Normal (Redirect "/")
  ∧ out.2 = w
  ∧ new_events w out.2 = [].
Proof.
  intros Hcode out. subst out.
  destruct (callback_run E query w)
    as [[-> _]|(c & Hq & Hne & _)].
  - cbn [fst snd]. rewrite new_events_none. repeat split.
  - rewrite Hcode in Hq. injection Hq as <-. contradiction.
Qed.

Lemma callback_empty_code_witness :
  let out :=
    callback (Cases.env_exchange (λ _, false)) {[ "code" := "" ]}
      Scenario.start in
  out.1 = Normal (Redirect "/")
  ∧ out.2 = Scenario.start
  ∧ new_events Scenario.start out.2 = [].
Proof.
  apply (callback_empty_code (Cases.env_exchange (λ _, false))
           {[ "code" := "" ]} Scenario.start).
  reflexivity.
Defined.

(** X16. The handler redirects to "/" only when it did nothing (no code)
    or when the session was upserted; it upserts only a session the
    exchange gave for the request's code; and it never reads the table,
    updates it or calls the token endpoint. *)
Theorem callback_redirect_only_after_save
    (E : env) (query : gmap string string) (w : world) :
  let out := callback E query w in
  (out.1 = Normal (Redirect "/") →
   out.2 = w
   ∨ ∃ payload, db_fails E (calls w) = false
                ∧ DbUpsert payload ∈ new_events w out.2
                ∧ table out.2 = upsert_rows E payload (table w))
  ∧ (count is_write (new_events w out.2) ≠ 0 →
     ∃ code s, query !! "code" = Some code
               ∧ exchangeCodeForSession E code = Some s
               ∧ new_events w out.2
                 = [ProviderExchange code;
                    DbUpsert
                      {[ "user_id" := VStr (session_user_id s);
                         "access_token" := session_access_token s;
                         "refresh_token" := session_refresh_token s;
                         "expires_at" := session_expires_at s ]}])
  ∧ Forall (λ ev, match ev with
                  | DbSelect _ | DbUpdate _ _ | ProviderRefresh _ => False
                  | _ => True
                  end)
      (new_events w out.2).
Proof.
  cbv zeta.
  destruct (callback_run E query w)
    as [[-> _]
       |(c & Hq & _ & [[Hs ->]|(s & Hs & [[Hdown ->]|[Hup ->]])])];
    cbn [fst snd].
  - rewrite new_events_none. split; [tauto|]. split; [|constructor].
    intros H. by destruct H.
  - erewrite new_events_app by reflexivity.
    split; [discriminate|]. split; [|by repeat constructor].
    intros H. by destruct H.
  - erewrite new_events_app by (cbn; by rewrite <- app_assoc).
    split; [discriminate|]. split; [|by repeat constructor].
    intros _. by exists c, s.
  - erewrite new_events_app by (cbn; by rewrite <- app_assoc).
    split; [|split; [|by repeat constructor]].
    + intros _. right. eexists. split; [exact Hup|].
      split; [|reflexivity]. apply elem_of_cons. right.
      apply elem_of_cons. by left.
    + intros _. by exists c, s.
Qed.

(** ** The lookup *)

(** X17. The lookup both readers run
    ([.eq('user_id', v).order('created_at', { ascending: false }).limit(1)
    .single()]) finds no row exactly when the user has none; the row it
    finds is a row of that user, and no row of the user was created
    later. *)
Theorem latest_is_newest_row_of_user (v : option string) (rows : list row) :
  (latest v rows = None ↔ ∀ x, x ∈ rows → user_id x ≠ eq_operand v)
  ∧ ∀ r, latest v rows = Some r →
         r ∈ rows ∧ user_id r = eq_operand v
         ∧ ∀ x, x ∈ rows → user_id x = eq_operand v →
                (created_at x ≤ created_at r)%Z.
Proof.
  split; [apply latest_None|]. intros r. apply latest_is_latest.
Qed.

(** X18. A request changes the table only when it answers with a
    refreshed token: with every other answer (the stored token, 404, 500)
    the table is as it was before the request. *)
Theorem get_token_changes_table_only_when_refreshed
    (S2N : string → option Z) (E : env) (query : gmap string string)
    (w : world) :
  let out := get_token S2N E query w in
  table out.2 = table w
  ∨ ∃ new_access_token,
      out.1 = Normal (Json 200
                {[ "access_token" := new_access_token;
                   "message" :=
                     VStr "Token refreshed and retrieved successfully." ]}).
Proof.
  cbv zeta.
  destruct (get_token_run S2N E query w)
    as [[-> _]|(_ & -> & [[[err Hthrow] _]|(o & _ & ->)])].
  - left. reflexivity.
  - left.
    destruct (refreshToken_run E (query !! "user_id")
                (served (DbSelect (query !! "user_id")) (table w) w))
      as [(_ & -> & _)
         |(r & _ & _ & [(_ & -> & _)
                       |(resp & o & _ & _ & _ & _ & _
                         & [(_ & -> & _)|(_ & _ & Hnormal)])])];
      try reflexivity.
    rewrite Hthrow in Hnormal. discriminate Hnormal.
  - right. by eexists.
Qed.
